(** * Task-space constraints for OMPL's constrained state space

    A shallow embedding of [ompl_constraints.h] / [ompl_constraints.cpp]
    (namespace [ompl_interface]): the [Bounds] penalty, the constraint
    evaluators built on it, the extraction of bounds from constraint
    messages and the constraint factory.

    Numbers.  A C++ [double] is embedded as an exact rational extended with
    the IEEE-754 special values (the two infinities and NaN).  The special
    values propagate as in IEEE-754; rounding of finite results and the sign
    of zero are not represented (a zero divisor counts as positive zero,
    which is what [1 - cos t] and [t * t] produce in the source). *)

From Stdlib Require Import String.
From Stdlib Require Import QArith Qreduction Qabs Lqa.
From Stdlib Require Import List Bool Arith Lia.
Import ListNotations.

Set Implicit Arguments.

(** ** Scalars *)

Inductive double : Type :=
| Fin (q : Q)
| PInf
| NInf
| NaN.

Declare Scope double_scope.
Delimit Scope double_scope with D.
Bind Scope double_scope with double.

Definition is_nan (x : double) : bool :=
  match x with NaN => true | _ => false end.

Definition is_inf (x : double) : bool :=
  match x with PInf | NInf => true | _ => false end.

Definition is_finite (x : double) : bool :=
  match x with Fin _ => true | _ => false end.

(** Sign of a value: [Lt] negative, [Eq] zero (or NaN), [Gt] positive. *)
Definition dsign (x : double) : comparison :=
  match x with
  | Fin q => (q ?= 0)%Q
  | PInf => Gt
  | NInf => Lt
  | NaN => Eq
  end.

(** The infinity whose sign is the product of two signs; a zero factor
    gives NaN (0 times infinity). *)
Definition signed_inf (s1 s2 : comparison) : double :=
  match s1, s2 with
  | Eq, _ | _, Eq => NaN
  | Lt, Lt | Gt, Gt => PInf
  | _, _ => NInf
  end.

Definition dneg (x : double) : double :=
  match x with
  | Fin q => Fin (- q)
  | PInf => NInf
  | NInf => PInf
  | NaN => NaN
  end.

Definition dabs (x : double) : double :=
  match x with
  | Fin q => Fin (Qabs q)
  | PInf | NInf => PInf
  | NaN => NaN
  end.

Definition dadd (x y : double) : double :=
  match x, y with
  | NaN, _ | _, NaN => NaN
  | Fin a, Fin b => Fin (Qred (a + b))
  | PInf, NInf | NInf, PInf => NaN
  | PInf, _ | _, PInf => PInf
  | NInf, _ | _, NInf => NInf
  end.

Definition dsub (x y : double) : double := dadd x (dneg y).

Definition dmul (x y : double) : double :=
  match x, y with
  | NaN, _ | _, NaN => NaN
  | Fin a, Fin b => Fin (Qred (a * b))
  | _, _ => signed_inf (dsign x) (dsign y)
  end.

(** Sign of a divisor: a zero divisor counts as positive. *)
Definition divisor_sign (y : double) : comparison :=
  match dsign y with Lt => Lt | _ => Gt end.

Definition ddiv (x y : double) : double :=
  match x, y with
  | NaN, _ | _, NaN => NaN
  | Fin a, Fin b =>
      if Qeq_bool b 0
      then signed_inf (dsign x) Gt
      else Fin (Qred (a / b))
  | Fin _, _ => Fin 0
  | _, Fin _ => signed_inf (dsign x) (divisor_sign y)
  | _, _ => NaN
  end.

Definition dltb (x y : double) : bool :=
  match x, y with
  | NaN, _ | _, NaN => false
  | Fin a, Fin b => negb (Qle_bool b a)
  | NInf, NInf => false
  | NInf, _ => true
  | _, NInf => false
  | PInf, _ => false
  | _, PInf => true
  end.

Definition dleb (x y : double) : bool :=
  match x, y with
  | NaN, _ | _, NaN => false
  | Fin a, Fin b => Qle_bool a b
  | NInf, _ => true
  | _, NInf => false
  | _, PInf => true
  | PInf, _ => false
  end.

Definition deqb (x y : double) : bool :=
  match x, y with
  | Fin a, Fin b => Qeq_bool a b
  | PInf, PInf | NInf, NInf => true
  | _, _ => false
  end.

Definition dgtb (x y : double) : bool := dltb y x.

Notation "x + y" := (dadd x y) : double_scope.
Notation "x - y" := (dsub x y) : double_scope.
Notation "x * y" := (dmul x y) : double_scope.
Notation "x / y" := (ddiv x y) : double_scope.
Notation "- x" := (dneg x) : double_scope.
Notation "x <? y" := (dltb x y) : double_scope.
Notation "x >? y" := (dgtb x y) (at level 70, no associativity) : double_scope.
Notation "x <=? y" := (dleb x y) : double_scope.
Notation "x =? y" := (deqb x y) : double_scope.

(** The literals of the source. *)
Definition d0 : double := Fin 0.
Definition d1 : double := Fin 1.
Definition d2 : double := Fin 2.
Definition dhalf : double := Fin (1 # 2).
Definition dm1 : double := Fin (-1).
(** [std::numeric_limits<double>::infinity()] *)
Definition infinity : double := PInf.

(** ** Failures

    What the C++ can do instead of returning: throw, or step outside the
    defined behaviour of the language or of Eigen (whose accessors assert
    their index and size preconditions). *)

Inductive failure : Type :=
| OutOfRange        (* std::out_of_range thrown by [at()] *)
| IndexOutOfBounds  (* unchecked [operator[]] or Eigen coefficient/block access outside the allocated size *)
| SizeMismatch      (* Eigen assignment or product of operands whose sizes do not agree *)
| Uninitialized.    (* read of a member that no initializer has set *)

Inductive outcome (A : Type) : Type :=
| Ok (a : A)
| Fail (f : failure).

Arguments Ok {A} a.
Arguments Fail {A} f.

Definition obind {A B : Type} (m : outcome A) (k : A -> outcome B) : outcome B :=
  match m with
  | Ok a => k a
  | Fail f => Fail f
  end.

Notation "x <- m ;; k" := (obind m (fun x => k))
  (at level 61, m at next level, right associativity).

(** A counted loop [for (i = 0; i < n; ++i) body(i)] over a mutable value. *)
Fixpoint for_range {S : Type} (i n : nat) (body : nat -> S -> outcome S) (s : S)
  : outcome S :=
  match n with
  | O => Ok s
  | Datatypes.S n' => s' <- body i s ;; for_range (Datatypes.S i) n' body s'
  end.

Definition for_loop {S : Type} (n : nat) (body : nat -> S -> outcome S) (s : S)
  : outcome S := for_range 0 n body s.

(** [std::vector::at]: checked access. *)
Definition at_ {A : Type} (l : list A) (i : nat) : outcome A :=
  match nth_error l i with
  | Some a => Ok a
  | None => Fail OutOfRange
  end.

(** [std::vector::operator[]] and Eigen's [operator[]]: unchecked access. *)
Definition index {A : Type} (l : list A) (i : nat) : outcome A :=
  match nth_error l i with
  | Some a => Ok a
  | None => Fail IndexOutOfBounds
  end.

Fixpoint replace_nth {A : Type} (l : list A) (i : nat) (a : A) : list A :=
  match l, i with
  | [], _ => []
  | _ :: t, O => a :: t
  | h :: t, Datatypes.S i' => h :: replace_nth t i' a
  end.

(** [v.at(i) = a] *)
Definition at_put {A : Type} (l : list A) (i : nat) (a : A) : outcome (list A) :=
  if i <? length l then Ok (replace_nth l i a) else Fail OutOfRange.

(** [v[i] = a] *)
Definition index_put {A : Type} (l : list A) (i : nat) (a : A) : outcome (list A) :=
  if i <? length l then Ok (replace_nth l i a) else Fail IndexOutOfBounds.

(** ** Eigen *)

Record Vector3d : Type := mkV3 { vx : double; vy : double; vz : double }.

Record Vector2d : Type := mkV2 { ux : double; uy : double }.

(** Rows of a 3x3 matrix. *)
Record Matrix3d : Type := mkM3 { row0 : Vector3d; row1 : Vector3d; row2 : Vector3d }.

Record Quaterniond : Type := mkQuat { qw : double; qx : double; qy : double; qz : double }.

Record Isometry3d : Type := mkIso { linear : Matrix3d; translation : Vector3d }.

Record AngleAxisd : Type := mkAA { angle : double; axis : Vector3d }.

(** Dynamically sized vector and matrix (a matrix is the list of its rows). *)
Definition VectorXd : Type := list double.
Definition MatrixXd : Type := list (list double).

Definition v3_coeffs (v : Vector3d) : VectorXd := [vx v; vy v; vz v].
Definition v2_coeffs (v : Vector2d) : VectorXd := [ux v; uy v].

Definition v3_map2 (f : double -> double -> double) (a b : Vector3d) : Vector3d :=
  mkV3 (f (vx a) (vx b)) (f (vy a) (vy b)) (f (vz a) (vz b)).

Definition v3_map (f : double -> double) (a : Vector3d) : Vector3d :=
  mkV3 (f (vx a)) (f (vy a)) (f (vz a)).

Definition v3_add : Vector3d -> Vector3d -> Vector3d := v3_map2 dadd.
Definition v3_sub : Vector3d -> Vector3d -> Vector3d := v3_map2 dsub.
Definition v3_scale (v : Vector3d) (s : double) : Vector3d := v3_map (fun c => c * s)%D v.
Definition v3_dot (a b : Vector3d) : double :=
  (vx a * vx b + vy a * vy b + vz a * vz b)%D.

Definition m3_map (f : double -> double) (m : Matrix3d) : Matrix3d :=
  mkM3 (v3_map f (row0 m)) (v3_map f (row1 m)) (v3_map f (row2 m)).

Definition m3_map2 (f : double -> double -> double) (a b : Matrix3d) : Matrix3d :=
  mkM3 (v3_map2 f (row0 a) (row0 b)) (v3_map2 f (row1 a) (row1 b))
       (v3_map2 f (row2 a) (row2 b)).

Definition m3_identity : Matrix3d :=
  mkM3 (mkV3 d1 d0 d0) (mkV3 d0 d1 d0) (mkV3 d0 d0 d1).

Definition m3_transpose (m : Matrix3d) : Matrix3d :=
  mkM3 (mkV3 (vx (row0 m)) (vx (row1 m)) (vx (row2 m)))
       (mkV3 (vy (row0 m)) (vy (row1 m)) (vy (row2 m)))
       (mkV3 (vz (row0 m)) (vz (row1 m)) (vz (row2 m))).

Definition m3_mul_v3 (m : Matrix3d) (v : Vector3d) : Vector3d :=
  mkV3 (v3_dot (row0 m) v) (v3_dot (row1 m) v) (v3_dot (row2 m) v).

Definition m3_mul (a b : Matrix3d) : Matrix3d :=
  let bt := m3_transpose b in
  mkM3 (m3_mul_v3 bt (row0 a)) (m3_mul_v3 bt (row1 a)) (m3_mul_v3 bt (row2 a)).

Definition m3_add : Matrix3d -> Matrix3d -> Matrix3d := m3_map2 dadd.
Definition m3_sub : Matrix3d -> Matrix3d -> Matrix3d := m3_map2 dsub.
Definition m3_scale (s : double) (m : Matrix3d) : Matrix3d := m3_map (fun c => s * c)%D m.
Definition m3_scale_r (m : Matrix3d) (s : double) : Matrix3d := m3_map (fun c => c * s)%D m.
Definition m3_div (m : Matrix3d) (s : double) : Matrix3d := m3_map (fun c => c / s)%D m.
Definition m3_neg : Matrix3d -> Matrix3d := m3_map dneg.
Definition m3_rows (m : Matrix3d) : MatrixXd :=
  [v3_coeffs (row0 m); v3_coeffs (row1 m); v3_coeffs (row2 m)].
Definition m3_coeffs (m : Matrix3d) : list double :=
  v3_coeffs (row0 m) ++ v3_coeffs (row1 m) ++ v3_coeffs (row2 m).

(** [Quaternion::toRotationMatrix], which is what [.matrix()] returns. *)
Definition toRotationMatrix (q : Quaterniond) : Matrix3d :=
  let tx := (d2 * qx q)%D in
  let ty := (d2 * qy q)%D in
  let tz := (d2 * qz q)%D in
  let twx := (tx * qw q)%D in
  let twy := (ty * qw q)%D in
  let twz := (tz * qw q)%D in
  let txx := (tx * qx q)%D in
  let txy := (ty * qx q)%D in
  let txz := (tz * qx q)%D in
  let tyy := (ty * qy q)%D in
  let tyz := (tz * qy q)%D in
  let tzz := (tz * qz q)%D in
  mkM3 (mkV3 (d1 - (tyy + tzz)) (txy - twz) (txz + twy))
       (mkV3 (txy + twz) (d1 - (txx + tzz)) (tyz - twx))
       (mkV3 (txz - twy) (tyz + twx) (d1 - (txx + tyy)))%D.

Definition rows (m : MatrixXd) : nat := length m.
Definition cols (m : MatrixXd) : nat :=
  match m with
  | [] => 0
  | r :: _ => length r
  end.

(** [MatrixXd::Zero(r, c)] *)
Definition mat_zero (r c : nat) : MatrixXd := repeat (repeat d0 c) r.
(** [VectorXd::Zero(n)] *)
Definition vec_zero (n : nat) : VectorXd := repeat d0 n.

(** [m.setZero()] keeps the size. *)
Definition setZero (m : MatrixXd) : MatrixXd := map (map (fun _ => d0)) m.

(** [m.topRows(n)] and [m.bottomRows(n)] *)
Definition topRows (m : MatrixXd) (n : nat) : outcome MatrixXd :=
  if n <=? rows m then Ok (firstn n m) else Fail IndexOutOfBounds.

Definition bottomRows (m : MatrixXd) (n : nat) : outcome MatrixXd :=
  if n <=? rows m then Ok (skipn (rows m - n) m) else Fail IndexOutOfBounds.

(** [m.row(i)] read *)
Definition row (m : MatrixXd) (i : nat) : outcome (list double) := index m i.

(** [m.row(i) = r] *)
Definition row_put (m : MatrixXd) (i : nat) (r : list double) : outcome MatrixXd :=
  match nth_error m i with
  | None => Fail IndexOutOfBounds
  | Some old =>
      if length r =? length old then Ok (replace_nth m i r) else Fail SizeMismatch
  end.

(** [m(i, j) = v] *)
Definition coeff_put (m : MatrixXd) (i j : nat) (v : double) : outcome MatrixXd :=
  old <- index m i ;;
  new <- index_put old j v ;;
  Ok (replace_nth m i new).

Definition scale_row (s : double) (r : list double) : list double :=
  map (fun c => s * c)%D r.

Definition dot (a b : list double) : double :=
  match combine a b with
  | [] => d0
  | (x, y) :: rest => fold_left (fun acc p => acc + fst p * snd p)%D rest (x * y)%D
  end.

Definition column (m : MatrixXd) (j : nat) : list double :=
  map (fun r => nth j r d0) m.

(** Matrix product; Eigen asserts that the inner sizes agree. *)
Definition mat_mul (a b : MatrixXd) : outcome MatrixXd :=
  if cols a =? rows b
  then Ok (map (fun ra => map (fun j => dot ra (column b j)) (seq 0 (cols b))) a)
  else Fail SizeMismatch.

(** Assignment through an [Eigen::Ref]: a Ref cannot be resized, so the
    source must have the size of the destination. *)
Definition ref_assign_vec (out src : VectorXd) : outcome VectorXd :=
  if length src =? length out then Ok src else Fail SizeMismatch.

Definition ref_assign_mat (out src : MatrixXd) : outcome MatrixXd :=
  if (rows src =? rows out) && (cols src =? cols out) then Ok src else Fail SizeMismatch.

(** ** Logging

    [ROS_INFO], [ROS_WARN] and [ROS_ERROR] append to a log; a computation
    that logs returns its outcome together with what it logged, and what was
    logged before a failure is kept.  Values streamed into a message are left
    out of the text, except the constraint and link names. *)

Inductive level : Type := INFO | WARN | ERROR.

Record log_entry : Type := mkLog { log_level : level; log_text : string }.

Definition logged (A : Type) : Type := (outcome A * list log_entry)%type.

Definition lret {A : Type} (a : A) : logged A := (Ok a, []).

Definition lbind {A B : Type} (m : logged A) (k : A -> logged B) : logged B :=
  match m with
  | (Ok a, l) => let (r, l') := k a in (r, l ++ l')
  | (Fail f, l) => (Fail f, l)
  end.

Definition lift {A : Type} (o : outcome A) : logged A := (o, []).

Definition log (lv : level) (text : string) : logged unit := (Ok tt, [mkLog lv text]).

Notation "x <~ m ;; k" := (lbind m (fun x => k))
  (at level 61, m at next level, right associativity).

Fixpoint lfor_range {S : Type} (i n : nat) (body : nat -> S -> logged S) (s : S)
  : logged S :=
  match n with
  | O => lret s
  | Datatypes.S n' => s' <~ body i s ;; lfor_range (Datatypes.S i) n' body s'
  end.

Definition lfor_loop {S : Type} (n : nat) (body : nat -> S -> logged S) (s : S)
  : logged S := lfor_range 0 n body s.

(** ** Constraint messages (the fields the code reads) *)

Module geometry_msgs.
Module Point.
Record t : Type := mk { x : double; y : double; z : double }.
End Point.
Module Quaternion.
Record t : Type := mk { x : double; y : double; z : double; w : double }.
End Quaternion.
Module Pose.
Record t : Type := mk { position : Point.t; orientation : Quaternion.t }.
End Pose.
End geometry_msgs.

Module shape_msgs.
Module SolidPrimitive.
Record t : Type := mk { dimensions : list double }.
End SolidPrimitive.
End shape_msgs.

Module moveit_msgs.
Module BoundingVolume.
Record t : Type := mk {
  primitives : list shape_msgs.SolidPrimitive.t;
  primitive_poses : list geometry_msgs.Pose.t }.
End BoundingVolume.
Module PositionConstraint.
Record t : Type := mk {
  link_name : string;
  constraint_region : BoundingVolume.t }.
End PositionConstraint.
Module OrientationConstraint.
Record t : Type := mk {
  orientation : geometry_msgs.Quaternion.t;
  link_name : string;
  absolute_x_axis_tolerance : double;
  absolute_y_axis_tolerance : double;
  absolute_z_axis_tolerance : double }.
End OrientationConstraint.
Module Constraints.
Record t : Type := mk {
  name : string;
  position_constraints : list PositionConstraint.t;
  orientation_constraints : list OrientationConstraint.t }.
End Constraints.
End moveit_msgs.

Import geometry_msgs shape_msgs moveit_msgs.

(** [tf::quaternionMsgToEigen] *)
Definition quaternionMsgToEigen (m : Quaternion.t) : Quaterniond :=
  mkQuat (Quaternion.w m) (Quaternion.x m) (Quaternion.y m) (Quaternion.z m).

(** [v << p.x, p.y, p.z] *)
Definition pointToEigen (p : Point.t) : Vector3d :=
  mkV3 (Point.x p) (Point.y p) (Point.z p).

(** ** External collaborators *)

(** The kinematics of a robot model, per joint group and link: the pose of
    the link and its 6xN geometric Jacobian at given joint positions.
    [getJacobian] may hand back a matrix of any shape (the source does not
    look at its success flag). *)
Record RobotModel : Type := mkRobotModel {
  getVariableCount : string -> nat;
  getGlobalLinkTransform : string -> string -> VectorXd -> Isometry3d;
  getJacobian : string -> string -> VectorXd -> MatrixXd }.

(** The transcendental routines the code calls: [std::sin], [std::cos] and
    the rotation-matrix constructor of [Eigen::AngleAxisd]. *)
Record Numerics : Type := mkNumerics {
  std_sin : double -> double;
  std_cos : double -> double;
  toAngleAxis : Matrix3d -> AngleAxisd }.

(** ** Bounds *)

Record Bounds : Type := mkBounds { lower : double; upper : double }.

Definition penalty (b : Bounds) (value : double) : double :=
  if (value <? lower b)%D then (lower b - value)%D
  else if (value >? upper b)%D then (value - upper b)%D
  else d0.

Definition derivative (b : Bounds) (value : double) : double :=
  if (value <? lower b)%D then dm1
  else if (value >? upper b)%D then d1
  else d0.

(** ** The constraint object *)

(** The dynamic class of a constraint. *)
Inductive constraint_class : Type :=
| PositionConstraint
| EqualityPositionConstraint
| LinearSystemPositionConstraint
| OrientationConstraint.

(** [ompl::magic::CONSTRAINT_PROJECTION_TOLERANCE], the default of
    [ompl::base::Constraint]'s tolerance (1e-4, as the header says). *)
Definition CONSTRAINT_PROJECTION_TOLERANCE : double := Fin (1 # 10000).

(** The members of [ompl::base::Constraint] ([n_], [k_], [tolerance_]) and
    of [BaseConstraint], with those of the two equality classes.  The Eigen
    members have no initializer: they hold nothing until a message is
    parsed. *)
Record BaseConstraint : Type := mkBaseConstraint {
  class_of : constraint_class;
  group_ : string;
  n_ : nat;
  k_ : nat;
  tolerance_ : double;
  link_name_ : string;
  bounds_ : list Bounds;
  target_position_ : option Vector3d;
  start_position_ : option Vector3d;
  end_position_ : option Vector3d;
  target_orientation_ : option Quaterniond;
  equality_constraint_threshold_ : double;
  is_dim_constrained_ : list bool }.

(** The constructors: every class passes [num_dofs] on and leaves
    [num_cons_] at its default 3. *)
Definition construct (cls : constraint_class) (group : string) (num_dofs : nat)
  : BaseConstraint :=
  mkBaseConstraint cls group num_dofs 3 CONSTRAINT_PROJECTION_TOLERANCE
    EmptyString [] None None None None (Fin (1 # 1000)) [].

Definition getCoDimension (c : BaseConstraint) : nat := k_ c.
Definition getTolerance (c : BaseConstraint) : double := tolerance_ c.

(** Read of an Eigen member. *)
Definition member {A : Type} (m : option A) : outcome A :=
  match m with
  | Some a => Ok a
  | None => Fail Uninitialized
  end.

Definition forwardKinematics (rm : RobotModel) (c : BaseConstraint)
    (joint_values : VectorXd) : Isometry3d :=
  getGlobalLinkTransform rm (group_ c) (link_name_ c) joint_values.

Definition robotGeometricJacobian (rm : RobotModel) (c : BaseConstraint)
    (joint_values : VectorXd) : MatrixXd :=
  getJacobian rm (group_ c) (link_name_ c) joint_values.

(** ** Bound extraction *)

(** "dimension of -1 signifies unconstrained parameter, so set to infinity" *)
Definition unconstrained_to_infinity (dims : list double) : list double :=
  map (fun dim => if (dim =? dm1)%D then infinity else dim) dims.

Definition positionConstraintMsgToBoundVector (pos_con : moveit_msgs.PositionConstraint.t)
  : outcome (list Bounds) :=
  prim <- at_ (BoundingVolume.primitives (PositionConstraint.constraint_region pos_con)) 0 ;;
  let dims := unconstrained_to_infinity (SolidPrimitive.dimensions prim) in
  dx <- index dims 0 ;;
  dy <- index dims 1 ;;
  dz <- index dims 2 ;;
  Ok [ mkBounds (- dx / d2) (dx / d2);
       mkBounds (- dy / d2) (dy / d2);
       mkBounds (- dz / d2) (dz / d2) ]%D.

Definition orientationConstraintMsgToBoundVector (ori_con : moveit_msgs.OrientationConstraint.t)
  : outcome (list Bounds) :=
  let dims := unconstrained_to_infinity
                [ OrientationConstraint.absolute_x_axis_tolerance ori_con;
                  OrientationConstraint.absolute_y_axis_tolerance ori_con;
                  OrientationConstraint.absolute_z_axis_tolerance ori_con ] in
  dx <- index dims 0 ;;
  dy <- index dims 1 ;;
  dz <- index dims 2 ;;
  Ok [ mkBounds (- dx) dx; mkBounds (- dy) dy; mkBounds (- dz) dz ]%D.

(** ** Parsing a constraint message *)

(** [constraints.position_constraints.at(0)] and what the parsers read
    below it. *)
Definition position_constraint_0 (constraints : Constraints.t)
  : outcome moveit_msgs.PositionConstraint.t :=
  at_ (Constraints.position_constraints constraints) 0.

Definition primitive_dimensions_0 (constraints : Constraints.t) : outcome (list double) :=
  pc <- position_constraint_0 constraints ;;
  prim <- at_ (BoundingVolume.primitives (PositionConstraint.constraint_region pc)) 0 ;;
  Ok (SolidPrimitive.dimensions prim).

Definition primitive_pose (constraints : Constraints.t) (i : nat) : outcome Pose.t :=
  pc <- position_constraint_0 constraints ;;
  at_ (BoundingVolume.primitive_poses (PositionConstraint.constraint_region pc)) i.

Definition set_bounds (c : BaseConstraint) (b : list Bounds) : BaseConstraint :=
  mkBaseConstraint (class_of c) (group_ c) (n_ c) (k_ c) (tolerance_ c) (link_name_ c)
    b (target_position_ c) (start_position_ c) (end_position_ c)
    (target_orientation_ c) (equality_constraint_threshold_ c) (is_dim_constrained_ c).

Definition set_is_dim_constrained (c : BaseConstraint) (m : list bool) : BaseConstraint :=
  mkBaseConstraint (class_of c) (group_ c) (n_ c) (k_ c) (tolerance_ c) (link_name_ c)
    (bounds_ c) (target_position_ c) (start_position_ c) (end_position_ c)
    (target_orientation_ c) (equality_constraint_threshold_ c) m.

Definition set_target_position (c : BaseConstraint) (p : Vector3d) : BaseConstraint :=
  mkBaseConstraint (class_of c) (group_ c) (n_ c) (k_ c) (tolerance_ c) (link_name_ c)
    (bounds_ c) (Some p) (start_position_ c) (end_position_ c)
    (target_orientation_ c) (equality_constraint_threshold_ c) (is_dim_constrained_ c).

Definition set_start_position (c : BaseConstraint) (p : Vector3d) : BaseConstraint :=
  mkBaseConstraint (class_of c) (group_ c) (n_ c) (k_ c) (tolerance_ c) (link_name_ c)
    (bounds_ c) (target_position_ c) (Some p) (end_position_ c)
    (target_orientation_ c) (equality_constraint_threshold_ c) (is_dim_constrained_ c).

Definition set_end_position (c : BaseConstraint) (p : Vector3d) : BaseConstraint :=
  mkBaseConstraint (class_of c) (group_ c) (n_ c) (k_ c) (tolerance_ c) (link_name_ c)
    (bounds_ c) (target_position_ c) (start_position_ c) (Some p)
    (target_orientation_ c) (equality_constraint_threshold_ c) (is_dim_constrained_ c).

Definition set_target_orientation (c : BaseConstraint) (q : Quaterniond) : BaseConstraint :=
  mkBaseConstraint (class_of c) (group_ c) (n_ c) (k_ c) (tolerance_ c) (link_name_ c)
    (bounds_ c) (target_position_ c) (start_position_ c) (end_position_ c)
    (Some q) (equality_constraint_threshold_ c) (is_dim_constrained_ c).

Definition set_link_name (c : BaseConstraint) (l : string) : BaseConstraint :=
  mkBaseConstraint (class_of c) (group_ c) (n_ c) (k_ c) (tolerance_ c) l
    (bounds_ c) (target_position_ c) (start_position_ c) (end_position_ c)
    (target_orientation_ c) (equality_constraint_threshold_ c) (is_dim_constrained_ c).

Definition msg_dimension_below_tolerance : string :=
  "Dimension %li of position constraint is smaller than the tolerance used to evaluate the constraints. This will make all states invalid and planning will fail :( Please use a value between %f and %f. ".

Definition PositionConstraint_parseConstraintMsg (c : BaseConstraint)
    (constraints : Constraints.t) : logged BaseConstraint :=
  _ <~ log INFO "Parsing position constraint for OMPL constrained state space." ;;
  let c := set_bounds c [] in
  pc <~ lift (position_constraint_0 constraints) ;;
  b <~ lift (positionConstraintMsgToBoundVector pc) ;;
  let c := set_bounds c b in
  _ <~ lift (index (bounds_ c) 0) ;;
  _ <~ log INFO "Parsed x constraints" ;;
  _ <~ lift (index (bounds_ c) 1) ;;
  _ <~ log INFO "Parsed y constraints" ;;
  _ <~ lift (index (bounds_ c) 2) ;;
  _ <~ log INFO "Parsed z constraints" ;;
  pose <~ lift (primitive_pose constraints 0) ;;
  let c := set_target_position c (pointToEigen (Pose.position pose)) in
  pose <~ lift (primitive_pose constraints 0) ;;
  let c := set_target_orientation c (quaternionMsgToEigen (Pose.orientation pose)) in
  pc <~ lift (position_constraint_0 constraints) ;;
  let c := set_link_name c (PositionConstraint.link_name pc) in
  _ <~ log INFO ("Position constraints applied to link: " ++ link_name_ c) ;;
  lret c.

(** The classification loop shared, text for text, by the two equality
    classes: a dimension under the threshold is constrained; one under the
    evaluation tolerance is reported and constrained all the same. *)
Definition classify_dimension (c : BaseConstraint) (dims : list double) (i : nat)
    (mask : list bool) : logged (list bool) :=
  d <~ lift (index dims i) ;;
  if (d <? equality_constraint_threshold_ c)%D then
    _ <~ (if (d <? getTolerance c)%D
          then log ERROR msg_dimension_below_tolerance
          else lret tt) ;;
    lift (at_put mask i true)
  else lret mask.

Definition classify_dimensions (c : BaseConstraint) (dims : list double)
  : logged (list bool) :=
  lfor_loop (length dims) (classify_dimension c dims) [false; false; false].

Definition EqualityPositionConstraint_parseConstraintMsg (c : BaseConstraint)
    (constraints : Constraints.t) : logged BaseConstraint :=
  _ <~ log INFO "Parsing equality position constraint for OMPL constrained state space." ;;
  let c := set_bounds c [] in
  dims <~ lift (primitive_dimensions_0 constraints) ;;
  mask <~ classify_dimensions c dims ;;
  let c := set_is_dim_constrained c mask in
  _ <~ lift (index (is_dim_constrained_ c) 0) ;;
  _ <~ log INFO "X dimension constraint? " ;;
  _ <~ lift (index (is_dim_constrained_ c) 1) ;;
  _ <~ log INFO "Y dimension constraint? " ;;
  _ <~ lift (index (is_dim_constrained_ c) 2) ;;
  _ <~ log INFO "Z dimension constraint? " ;;
  pose <~ lift (primitive_pose constraints 0) ;;
  let c := set_target_position c (pointToEigen (Pose.position pose)) in
  pose <~ lift (primitive_pose constraints 0) ;;
  let c := set_target_orientation c (quaternionMsgToEigen (Pose.orientation pose)) in
  pc <~ lift (position_constraint_0 constraints) ;;
  let c := set_link_name c (PositionConstraint.link_name pc) in
  _ <~ log INFO ("Position constraints applied to link: " ++ link_name_ c) ;;
  lret c.

Definition LinearSystemPositionConstraint_parseConstraintMsg (c : BaseConstraint)
    (constraints : Constraints.t) : logged BaseConstraint :=
  _ <~ log INFO "Parsing linear system position constraint for OMPL constrained state space." ;;
  let c := set_bounds c [] in
  dims <~ lift (primitive_dimensions_0 constraints) ;;
  mask <~ classify_dimensions c dims ;;
  let c := set_is_dim_constrained c mask in
  _ <~ lift (index (is_dim_constrained_ c) 0) ;;
  _ <~ log INFO "X constrained? " ;;
  _ <~ lift (index (is_dim_constrained_ c) 1) ;;
  _ <~ log INFO "Y constrained? " ;;
  _ <~ lift (index (is_dim_constrained_ c) 2) ;;
  _ <~ log INFO "Z constrained? " ;;
  pose <~ lift (primitive_pose constraints 0) ;;
  let c := set_start_position c (pointToEigen (Pose.position pose)) in
  pose <~ lift (primitive_pose constraints 1) ;;
  let c := set_end_position c (pointToEigen (Pose.position pose)) in
  pose <~ lift (primitive_pose constraints 0) ;;
  let c := set_target_orientation c (quaternionMsgToEigen (Pose.orientation pose)) in
  pc <~ lift (position_constraint_0 constraints) ;;
  let c := set_link_name c (PositionConstraint.link_name pc) in
  _ <~ log INFO ("Position constraints applied to link: " ++ link_name_ c) ;;
  lret c.

Definition orientation_constraint_0 (constraints : Constraints.t)
  : outcome moveit_msgs.OrientationConstraint.t :=
  at_ (Constraints.orientation_constraints constraints) 0.

Definition OrientationConstraint_parseConstraintMsg (c : BaseConstraint)
    (constraints : Constraints.t) : logged BaseConstraint :=
  let c := set_bounds c [] in
  oc <~ lift (orientation_constraint_0 constraints) ;;
  b <~ lift (orientationConstraintMsgToBoundVector oc) ;;
  let c := set_bounds c b in
  _ <~ log INFO "Parsing orientation constraints" ;;
  _ <~ lift (index (bounds_ c) 0) ;;
  _ <~ log INFO "Parsed rx / roll constraints" ;;
  _ <~ lift (index (bounds_ c) 1) ;;
  _ <~ log INFO "Parsed ry / pitch constraints" ;;
  _ <~ lift (index (bounds_ c) 2) ;;
  _ <~ log INFO "Parsed rz / yaw constraints" ;;
  oc <~ lift (orientation_constraint_0 constraints) ;;
  let c := set_target_orientation c (quaternionMsgToEigen (OrientationConstraint.orientation oc)) in
  oc <~ lift (orientation_constraint_0 constraints) ;;
  let c := set_link_name c (OrientationConstraint.link_name oc) in
  lret c.

(** The virtual [parseConstraintMsg], dispatched on the dynamic class. *)
Definition parseConstraintMsg (c : BaseConstraint) (constraints : Constraints.t)
  : logged BaseConstraint :=
  match class_of c with
  | PositionConstraint => PositionConstraint_parseConstraintMsg c constraints
  | EqualityPositionConstraint => EqualityPositionConstraint_parseConstraintMsg c constraints
  | LinearSystemPositionConstraint =>
      LinearSystemPositionConstraint_parseConstraintMsg c constraints
  | OrientationConstraint => OrientationConstraint_parseConstraintMsg c constraints
  end.

(** [BaseConstraint::init] *)
Definition init (c : BaseConstraint) (constraints : Constraints.t) : logged BaseConstraint :=
  parseConstraintMsg c constraints.

(** ** Position constraints: error and error Jacobian *)

Definition PositionConstraint_calcError (rm : RobotModel) (c : BaseConstraint)
    (x : VectorXd) : outcome VectorXd :=
  q <- member (target_orientation_ c) ;;
  p <- member (target_position_ c) ;;
  Ok (v3_coeffs (m3_mul_v3 (m3_transpose (toRotationMatrix q))
                           (v3_sub (translation (forwardKinematics rm c x)) p))).

Definition PositionConstraint_calcErrorJacobian (rm : RobotModel) (c : BaseConstraint)
    (x : VectorXd) : outcome MatrixXd :=
  q <- member (target_orientation_ c) ;;
  top <- topRows (robotGeometricJacobian rm c x) 3 ;;
  mat_mul (m3_rows (m3_transpose (toRotationMatrix q))) top.

(** ** Orientation constraints: error and error Jacobian *)

Definition angularVelocityToAngleAxis (nm : Numerics) (angle : double) (axis : Vector3d)
  : Matrix3d :=
  let t := dabs angle in
  let r_skew :=
    mkM3 (mkV3 d0 (- vz axis) (vy axis))
         (mkV3 (vz axis) d0 (- vx axis))
         (mkV3 (- vy axis) (vx axis) d0)%D in
  let r_skew := m3_scale_r r_skew angle in
  let C := (d1 - dhalf * t * std_sin nm t / (d1 - std_cos nm t))%D in
  m3_add (m3_sub m3_identity (m3_scale dhalf r_skew))
         (m3_scale_r (m3_div (m3_mul r_skew r_skew) (t * t)%D) C).

(** [forwardKinematics(x).linear().transpose() * target_orientation_] *)
Definition orientation_difference (rm : RobotModel) (c : BaseConstraint) (x : VectorXd)
  : outcome Matrix3d :=
  q <- member (target_orientation_ c) ;;
  Ok (m3_mul (m3_transpose (linear (forwardKinematics rm c x))) (toRotationMatrix q)).

Definition OrientationConstraint_calcError (rm : RobotModel) (nm : Numerics)
    (c : BaseConstraint) (x : VectorXd) : outcome VectorXd :=
  d <- orientation_difference rm c x ;;
  let aa := toAngleAxis nm d in
  Ok (v3_coeffs (v3_scale (axis aa) (angle aa))).

Definition OrientationConstraint_calcErrorJacobian (rm : RobotModel) (nm : Numerics)
    (c : BaseConstraint) (x : VectorXd) : outcome MatrixXd :=
  d <- orientation_difference rm c x ;;
  let aa := toAngleAxis nm d in
  bottom <- bottomRows (robotGeometricJacobian rm c x) 3 ;;
  mat_mul (m3_rows (m3_neg (angularVelocityToAngleAxis nm (angle aa) (axis aa)))) bottom.

(** ** The base evaluation *)

(** The virtual [calcError] and [calcErrorJacobian]; a class that does not
    override them gets the zero vector and the zero matrix. *)
Definition calcError (rm : RobotModel) (nm : Numerics) (c : BaseConstraint)
    (x : VectorXd) : outcome VectorXd :=
  match class_of c with
  | PositionConstraint => PositionConstraint_calcError rm c x
  | OrientationConstraint => OrientationConstraint_calcError rm nm c x
  | _ => Ok (vec_zero (getCoDimension c))
  end.

Definition calcErrorJacobian (rm : RobotModel) (nm : Numerics) (c : BaseConstraint)
    (x : VectorXd) : outcome MatrixXd :=
  match class_of c with
  | PositionConstraint => PositionConstraint_calcErrorJacobian rm c x
  | OrientationConstraint => OrientationConstraint_calcErrorJacobian rm nm c x
  | _ => Ok (mat_zero (getCoDimension c) (n_ c))
  end.

Definition BaseConstraint_function (rm : RobotModel) (nm : Numerics) (c : BaseConstraint)
    (joint_values : VectorXd) (out : VectorXd) : outcome VectorXd :=
  current_values <- calcError rm nm c joint_values ;;
  for_loop (length (bounds_ c))
    (fun i out =>
       b <- index (bounds_ c) i ;;
       v <- index current_values i ;;
       index_put out i (penalty b v))
    out.

Definition BaseConstraint_jacobian (rm : RobotModel) (nm : Numerics) (c : BaseConstraint)
    (joint_values : VectorXd) (out : MatrixXd) : outcome MatrixXd :=
  constraint_error <- calcError rm nm c joint_values ;;
  robot_jacobian <- calcErrorJacobian rm nm c joint_values ;;
  for_loop (length (bounds_ c))
    (fun i out =>
       b <- index (bounds_ c) i ;;
       e <- index constraint_error i ;;
       r <- row robot_jacobian i ;;
       row_put out i (scale_row (derivative b e) r))
    out.

(** ** Equality position constraints *)

Definition EqualityPositionConstraint_function (rm : RobotModel) (c : BaseConstraint)
    (joint_values : VectorXd) (out : VectorXd) : outcome VectorXd :=
  q <- member (target_orientation_ c) ;;
  p <- member (target_position_ c) ;;
  let error :=
    v3_coeffs (m3_mul_v3 (m3_transpose (toRotationMatrix q))
                 (v3_sub (translation (forwardKinematics rm c joint_values)) p)) in
  for_loop 3
    (fun dim out =>
       constrained <- index (is_dim_constrained_ c) dim ;;
       if constrained : bool
       then e <- index error dim ;; index_put out dim e
       else index_put out dim d0)
    out.

Definition EqualityPositionConstraint_jacobian (rm : RobotModel) (c : BaseConstraint)
    (joint_values : VectorXd) (out : MatrixXd) : outcome MatrixXd :=
  let out := setZero out in
  q <- member (target_orientation_ c) ;;
  top <- topRows (robotGeometricJacobian rm c joint_values) 3 ;;
  jac <- mat_mul (m3_rows (m3_transpose (toRotationMatrix q))) top ;;
  for_loop 3
    (fun dim out =>
       constrained <- index (is_dim_constrained_ c) dim ;;
       if constrained : bool
       then r <- row jac dim ;; row_put out dim r
       else Ok out)
    out.

(** ** Linear system position constraints *)

(** The two residuals, a [Vector2d]. *)
Definition LinearSystemPositionConstraint_residual (start_position end_position
    cartesianPosition : Vector3d) : Vector2d :=
  mkV2 ((vx end_position - vx start_position) * (vy cartesianPosition - vy start_position)
        - (vy end_position - vy start_position) * (vx cartesianPosition - vx start_position))
       ((vy end_position - vy start_position) * (vz cartesianPosition - vz start_position)
        - (vz end_position - vz start_position) * (vy cartesianPosition - vy start_position))%D.

Definition LinearSystemPositionConstraint_function (rm : RobotModel) (c : BaseConstraint)
    (joint_values : VectorXd) (out : VectorXd) : outcome VectorXd :=
  q <- member (target_orientation_ c) ;;
  let cartesianPosition :=
    m3_mul_v3 (m3_transpose (toRotationMatrix q))
              (translation (forwardKinematics rm c joint_values)) in
  s <- member (start_position_ c) ;;
  e <- member (end_position_ c) ;;
  let residual := LinearSystemPositionConstraint_residual s e cartesianPosition in
  ref_assign_vec out (v2_coeffs residual).

(** A default-constructed [Eigen::MatrixXd] has no rows and no columns. *)
Definition MatrixXd_default : MatrixXd := [].

(** The six coefficient assignments of [jacobian], in source order, on the
    matrix [m]. *)
Definition dresidual_dcartesianPosition_assignments (start_position end_position : Vector3d)
    (m : MatrixXd) : outcome MatrixXd :=
  m <- coeff_put m 0 0 (vy start_position - vy end_position)%D ;;
  m <- coeff_put m 1 0 d0 ;;
  m <- coeff_put m 0 1 (vx end_position - vx start_position)%D ;;
  m <- coeff_put m 1 1 (vz start_position - vz end_position)%D ;;
  m <- coeff_put m 0 1 d0 ;;
  m <- coeff_put m 1 1 (vy end_position - vy start_position)%D ;;
  Ok m.

Definition LinearSystemPositionConstraint_jacobian (rm : RobotModel) (c : BaseConstraint)
    (joint_values : VectorXd) (out : MatrixXd) : outcome MatrixXd :=
  let out := setZero out in
  q <- member (target_orientation_ c) ;;
  top <- topRows (robotGeometricJacobian rm c joint_values) 3 ;;
  jac <- mat_mul (m3_rows (m3_transpose (toRotationMatrix q))) top ;;
  s <- member (start_position_ c) ;;
  e <- member (end_position_ c) ;;
  dresidual_dcartesianPosition <-
    dresidual_dcartesianPosition_assignments s e MatrixXd_default ;;
  product <- mat_mul dresidual_dcartesianPosition jac ;;
  ref_assign_mat out product.

(** ** The evaluator: virtual [function] and [jacobian] *)

Definition function (rm : RobotModel) (nm : Numerics) (c : BaseConstraint)
    (joint_values : VectorXd) (out : VectorXd) : outcome VectorXd :=
  match class_of c with
  | EqualityPositionConstraint => EqualityPositionConstraint_function rm c joint_values out
  | LinearSystemPositionConstraint =>
      LinearSystemPositionConstraint_function rm c joint_values out
  | _ => BaseConstraint_function rm nm c joint_values out
  end.

Definition jacobian (rm : RobotModel) (nm : Numerics) (c : BaseConstraint)
    (joint_values : VectorXd) (out : MatrixXd) : outcome MatrixXd :=
  match class_of c with
  | EqualityPositionConstraint => EqualityPositionConstraint_jacobian rm c joint_values out
  | LinearSystemPositionConstraint =>
      LinearSystemPositionConstraint_jacobian rm c joint_values out
  | _ => BaseConstraint_jacobian rm nm c joint_values out
  end.

(** ** The factory *)

Definition log_when (b : bool) (lv : level) (text : string) : logged unit :=
  if b then log lv text else lret tt.

(** [nullptr] is [None]. *)
Definition createOMPLConstraint (rm : RobotModel) (group : string)
    (constraints : Constraints.t) : logged (option BaseConstraint) :=
  let num_dofs := getVariableCount rm group in
  let num_pos_con := length (Constraints.position_constraints constraints) in
  let num_ori_con := length (Constraints.orientation_constraints constraints) in
  _ <~ log_when (1 <? num_pos_con) WARN
         "Only a single position constraints supported. Using the first one." ;;
  _ <~ log_when (1 <? num_ori_con) WARN
         "Only a single orientation constraints supported. Using the first one." ;;
  if (0 <? num_pos_con) && (0 <? num_ori_con) then
    _ <~ log ERROR "Combining position and orientation constraints not implemented yet for OMPL's constrained state space." ;;
    lret None
  else if 0 <? num_pos_con then
    _ <~ log INFO ("Constraint name: " ++ Constraints.name constraints) ;;
    pos_con <~
      (if String.eqb (Constraints.name constraints) "use_equality_constraints" then
         _ <~ log INFO "Using equality position constraints." ;;
         lret (construct EqualityPositionConstraint group num_dofs)
       else if String.eqb (Constraints.name constraints) "linear_system_constraints" then
         _ <~ log INFO "Using position constraints from a linear system." ;;
         lret (construct LinearSystemPositionConstraint group num_dofs)
       else
         _ <~ log INFO "Using bounded position constraints." ;;
         lret (construct PositionConstraint group num_dofs)) ;;
    pos_con <~ init pos_con constraints ;;
    lret (Some pos_con)
  else if 0 <? num_ori_con then
    _ <~ log ERROR "Orientation constraints are not yet supported." ;;
    ori_con <~ init (construct OrientationConstraint group num_dofs) constraints ;;
    lret (Some ori_con)
  else
    _ <~ log ERROR "No path constraints found in planning request." ;;
    lret None.

(** ** Concrete instances

    A gantry with two prismatic joints moving its tool along x and y, and
    messages for it; used to run the definitions above. *)

Definition gantry : RobotModel :=
  mkRobotModel
    (fun _ => 2%nat)
    (fun _ _ q => mkIso m3_identity (mkV3 (nth 0 q d0) (nth 1 q d0) d0))
    (fun _ _ _ => [[d1; d0]; [d0; d1]; [d0; d0]; [d0; d0]; [d0; d0]; [d0; d0]]).

(** A wrist with three revolute joints about x, y and z, held at the
    orientation where its tool frame is the world frame. *)
Definition wrist : RobotModel :=
  mkRobotModel
    (fun _ => 3%nat)
    (fun _ _ q => mkIso m3_identity (mkV3 d0 d0 d0))
    (fun _ _ _ => [[d0; d0; d0]; [d0; d0; d0]; [d0; d0; d0];
                   [d1; d0; d0]; [d0; d1; d0]; [d0; d0; d1]]).

Definition m3_eqb (a b : Matrix3d) : bool :=
  forallb (fun p => (fst p =? snd p)%D) (combine (m3_coeffs a) (m3_coeffs b)).

(** Stand-ins for the transcendental routines: truncated series for sine
    and cosine (exact at 0), and the angle-axis of the identity rotation,
    for which Eigen returns angle 0 about the x axis. *)
Definition series_numerics : Numerics :=
  mkNumerics
    (fun x => x - x * x * x / Fin 6)%D
    (fun x => d1 - x * x / d2)%D
    (fun m => if m3_eqb m m3_identity
              then mkAA d0 (mkV3 d1 d0 d0)
              else mkAA NaN (mkV3 NaN NaN NaN)).

Definition identity_quaternion : Quaternion.t := Quaternion.mk d0 d0 d0 d1.

Definition pose_at (x y z : double) : Pose.t :=
  Pose.mk (Point.mk x y z) identity_quaternion.

Definition box_constraint (dims : list double) (poses : list Pose.t)
  : moveit_msgs.PositionConstraint.t :=
  PositionConstraint.mk "tool" (BoundingVolume.mk [SolidPrimitive.mk dims] poses).

(** A box of 2 x 1 x unconstrained around (1, 2, 0). *)
Definition box_msg (name : string) : Constraints.t :=
  Constraints.mk name
    [box_constraint [d2; d1; dm1] [pose_at d1 d2 d0; pose_at d2 (Fin 4) (Fin 3)]] [].

(** A plane: only y is thinner than the equality threshold. *)
Definition plane_msg (name : string) : Constraints.t :=
  Constraints.mk name
    [box_constraint [d1; Fin (1 # 2000); d1] [pose_at d0 d0 d0; pose_at d1 d2 (Fin 3)]] [].

(** The same plane, thinner than the evaluation tolerance. *)
Definition thin_plane_msg (name : string) : Constraints.t :=
  Constraints.mk name
    [box_constraint [d1; Fin (1 # 100000); d1] [pose_at d0 d0 d0; pose_at d1 d2 (Fin 3)]] [].

(** A position entry whose region has no primitive. *)
Definition no_primitive_msg (name : string) : Constraints.t :=
  Constraints.mk name
    [PositionConstraint.mk "tool" (BoundingVolume.mk [] [pose_at d0 d0 d0])] [].

Definition upright_constraint : moveit_msgs.OrientationConstraint.t :=
  OrientationConstraint.mk identity_quaternion "tool" (Fin (1 # 10)) (Fin (1 # 10)) dm1.

Definition upright_msg : Constraints.t := Constraints.mk "" [] [upright_constraint].

Definition both_msg : Constraints.t :=
  Constraints.mk ""
    [box_constraint [d2; d1; dm1] [pose_at d1 d2 d0]] [upright_constraint].

Definition empty_msg : Constraints.t := Constraints.mk "" [] [].

(** ** What the specification calls a satisfied and a violated bound *)

Definition within (b : Bounds) (v : double) : bool :=
  (lower b <=? v)%D && (v <=? upper b)%D.

Definition strictly_within (b : Bounds) (v : double) : bool :=
  (lower b <? v)%D && (v <? upper b)%D.

Definition violated (b : Bounds) (v : double) : bool :=
  (v <? lower b)%D || (v >? upper b)%D.

(** ** What the specification says of the extracted bounds *)

(** An extent of -1 stands for an unconstrained axis. *)
Definition sentinel (extent : double) : double :=
  if (extent =? dm1)%D then PInf else extent.

(** The bound of a box extent: from minus half the extent to half of it. *)
Definition box_bound (extent : double) : Bounds :=
  mkBounds (- sentinel extent / d2) (sentinel extent / d2)%D.

(** The bound of an axis tolerance. *)
Definition tolerance_bound (tolerance : double) : Bounds :=
  mkBounds (- sentinel tolerance) (sentinel tolerance)%D.

(** ** What the parsers need of a description *)

(** The class the factory selects by the name tag. *)
Definition selected_class (name : string) : constraint_class :=
  if String.eqb name "use_equality_constraints" then EqualityPositionConstraint
  else if String.eqb name "linear_system_constraints" then LinearSystemPositionConstraint
  else PositionConstraint.

(** No dimension after the third is under the threshold (the mask has
    three entries). *)
Definition dimensions_classifiable (threshold : double) (dims : list double) : bool :=
  forallb (fun d => negb (d <? threshold)%D) (skipn 3 dims).

(** The first position entry has what the parser of the class reads: a
    primitive, with three dimensions for the bounded class, and a pose
    (two poses for the linear system class). *)
Definition well_formed_for (cls : constraint_class) (pc : moveit_msgs.PositionConstraint.t)
  : bool :=
  let region := PositionConstraint.constraint_region pc in
  match BoundingVolume.primitives region with
  | [] => false
  | prim :: _ =>
      let dims := SolidPrimitive.dimensions prim in
      let poses := BoundingVolume.primitive_poses region in
      match cls with
      | PositionConstraint => (3 <=? length dims) && (1 <=? length poses)
      | EqualityPositionConstraint =>
          dimensions_classifiable (Fin (1 # 1000)) dims && (1 <=? length poses)
      | LinearSystemPositionConstraint =>
          dimensions_classifiable (Fin (1 # 1000)) dims && (2 <=? length poses)
      | OrientationConstraint => false
      end
  end.

(** The diagnostic of a dimension under the evaluation tolerance. *)
Definition below_tolerance_entry : log_entry := mkLog ERROR msg_dimension_below_tolerance.

(** ** What the specification says of the linear system Jacobian *)

(** The derivative of the two residuals with respect to the Cartesian
    position: row 0 is [(start.y - end.y, end.x - start.x, 0)] and row 1 is
    [(0, start.z - end.z, end.y - start.y)]. *)
Definition residual_derivative (start_position end_position : Vector3d) : MatrixXd :=
  [ [ vy start_position - vy end_position; vx end_position - vx start_position; d0 ];
    [ d0; vz start_position - vz end_position; vy end_position - vy start_position ] ]%D.

(** A vector of three finite coordinates. *)
Definition fin3 (a b c : Q) : Vector3d := mkV3 (Fin a) (Fin b) (Fin c).

(** What the factory returns when [init] returned [r]. *)
Definition returned (r : outcome BaseConstraint) : outcome (option BaseConstraint) :=
  match r with
  | Ok c => Ok (Some c)
  | Fail f => Fail f
  end.

(** ** The getters of the base class *)

Definition getLinkName (c : BaseConstraint) : string := link_name_ c.

Definition getTargetPosition (c : BaseConstraint) : outcome Vector3d :=
  member (target_position_ c).

Definition getTargetOrientation (c : BaseConstraint) : outcome Quaterniond :=
  member (target_orientation_ c).

(** ** Vocabulary of the further properties *)

(** Dimension [i] of a primitive is under the threshold; a dimension the
    list does not have is not. *)
Definition classified (threshold : double) (dims : list double) (i : nat) : bool :=
  match nth_error dims i with
  | Some d => (d <? threshold)%D
  | None => false
  end.

(** A dimension under both the equality threshold and the evaluation
    tolerance of [c]. *)
Definition thin (c : BaseConstraint) (d : double) : bool :=
  (d <? equality_constraint_threshold_ c)%D && (d <? getTolerance c)%D.

Definition is_error (e : log_entry) : bool :=
  match log_level e with
  | ERROR => true
  | _ => false
  end.

(** Sine and cosine as they come out for an angle too small for the
    cosine to differ from 1. *)
Definition tiny_angle_numerics : Numerics :=
  mkNumerics (fun x => x) (fun _ => d1) (toAngleAxis series_numerics).

(** A robot whose Jacobian query hands back an empty matrix. *)
Definition robot_without_jacobian : RobotModel :=
  mkRobotModel
    (getVariableCount gantry)
    (getGlobalLinkTransform gantry)
    (fun _ _ _ => []).

(** * Properties *)

(** ** Order and arithmetic of scalars *)

Lemma Qle_bool_false (a b : Q) : Qle_bool a b = false <-> (b < a)%Q.
Proof.
  split; intro H.
  - apply Qnot_le_lt. intro Hle. apply Qle_bool_iff in Hle. congruence.
  - destruct (Qle_bool a b) eqn:E; [|reflexivity].
    apply Qle_bool_iff in E. lra.
Qed.

Lemma Qlt_negb_le (a b : Q) : negb (Qle_bool b a) = true <-> (a < b)%Q.
Proof.
  rewrite negb_true_iff. apply Qle_bool_false.
Qed.

Ltac qbool :=
  repeat match goal with
  | H : negb (Qle_bool _ _) = true |- _ => apply Qlt_negb_le in H
  | H : negb (Qle_bool _ _) = false |- _ =>
      apply negb_false_iff in H; apply Qle_bool_iff in H
  | H : Qle_bool _ _ = true |- _ => apply Qle_bool_iff in H
  | H : Qle_bool _ _ = false |- _ => apply Qle_bool_false in H
  | |- negb (Qle_bool _ _) = true => apply Qlt_negb_le
  | |- negb (Qle_bool _ _) = false => apply negb_false_iff; apply Qle_bool_iff
  | |- Qle_bool _ _ = true => apply Qle_bool_iff
  | |- Qle_bool _ _ = false => apply Qle_bool_false
  end.

(** Case analysis on scalars, discharging the cases on special values by
    computation and the finite ones by linear arithmetic. *)
Ltac dsimpl :=
  unfold d0, d1, d2, dm1, dhalf, infinity, dgtb, dsub in *;
  cbn [dadd dneg dmul ddiv dltb dleb deqb dabs is_nan is_inf is_finite
       dsign signed_inf divisor_sign] in *.

Ltac dcases :=
  intros;
  repeat match goal with x : double |- _ => destruct x end;
  dsimpl; try congruence; try discriminate;
  qbool; repeat rewrite Qred_correct in *; try lra.

Lemma dleb_not_dltb (x y : double) : (x <=? y)%D = true -> (y <? x)%D = false.
Proof. dcases. Qed.

Lemma dltb_not_dltb (x y : double) : (x <? y)%D = true -> (y <? x)%D = false.
Proof. dcases. Qed.

Lemma dleb_dltb_trans (x y z : double) :
  (x <=? y)%D = true -> (y <? z)%D = true -> (x <? z)%D = true.
Proof. dcases. Qed.

Lemma dltb_false_dleb (x y : double) :
  is_nan x = false -> is_nan y = false -> (x <? y)%D = false -> (y <=? x)%D = true.
Proof. dcases. Qed.

Lemma dltb_irrefl (x : double) : (x <? x)%D = false.
Proof. dcases. Qed.

(** The distance to a bound that is overstepped is positive. *)
Lemma dsub_pos (x y : double) : (x <? y)%D = true -> (d0 <? y - x)%D = true.
Proof. dcases. Qed.

Lemma dmul_0_l (x : double) : is_finite x = true -> (d0 * x)%D = d0.
Proof.
  destruct x; intros H; try discriminate H.
  reflexivity.
Qed.

(** ** Bounds *)

(** C2.  For bounds with [lower <= upper] and every value [v]: the penalty is
    0 and the derivative 0 when [lower <= v <= upper]; the penalty is
    [lower - v], positive, and the derivative -1 when [v < lower]; the
    penalty is [v - upper], positive, and the derivative +1 when
    [v > upper]; the derivative is 0 in every other case, and in particular
    at the two boundary values. *)
Theorem C2_penalty_derivative (b : Bounds) (v : double) :
  (lower b <=? upper b)%D = true ->
  ((lower b <=? v)%D = true -> (v <=? upper b)%D = true ->
     penalty b v = d0 /\ derivative b v = d0) /\
  ((v <? lower b)%D = true ->
     penalty b v = (lower b - v)%D /\ (d0 <? penalty b v)%D = true /\
     derivative b v = dm1) /\
  ((v >? upper b)%D = true ->
     penalty b v = (v - upper b)%D /\ (d0 <? penalty b v)%D = true /\
     derivative b v = d1) /\
  ((v <? lower b)%D = false -> (v >? upper b)%D = false -> derivative b v = d0) /\
  derivative b (lower b) = d0 /\ derivative b (upper b) = d0.
Proof.
  intros Hlu. unfold penalty, derivative, dgtb.
  repeat split.
  - rewrite (dleb_not_dltb _ _ H), (dleb_not_dltb _ _ H0). reflexivity.
  - rewrite (dleb_not_dltb _ _ H), (dleb_not_dltb _ _ H0). reflexivity.
  - rewrite H. reflexivity.
  - rewrite H. apply dsub_pos, H.
  - rewrite H. reflexivity.
  - rewrite (dltb_not_dltb _ _ (dleb_dltb_trans _ _ _ Hlu H)), H. reflexivity.
  - rewrite (dltb_not_dltb _ _ (dleb_dltb_trans _ _ _ Hlu H)), H.
    apply dsub_pos, H.
  - rewrite (dltb_not_dltb _ _ (dleb_dltb_trans _ _ _ Hlu H)), H. reflexivity.
  - intros H H0. rewrite H, H0. reflexivity.
  - rewrite dltb_irrefl, (dleb_not_dltb _ _ Hlu). reflexivity.
  - rewrite (dleb_not_dltb _ _ Hlu), dltb_irrefl. reflexivity.
Qed.

Lemma C2_penalty_derivative_witness :
  (Fin (-1) <=? Fin 1)%D = true /\
  penalty (mkBounds (Fin (-1)) (Fin 1)) (Fin 3) = Fin 2 /\
  derivative (mkBounds (Fin (-1)) (Fin 1)) (Fin 3) = d1 /\
  derivative (mkBounds (Fin (-1)) (Fin 1)) (Fin 1) = d0.
Proof.
  split; [reflexivity|].
  destruct (C2_penalty_derivative (mkBounds (Fin (-1)) (Fin 1)) (Fin 3) eq_refl)
    as (_ & _ & Habove & _ & _ & Hup).
  destruct (Habove eq_refl) as (Hp & _ & Hd).
  split; [exact Hp|]. split; [exact Hd|exact Hup].
Defined.

(** ** Sequencing *)

Lemma obind_Ok {A B : Type} (m : outcome A) (k : A -> outcome B) (b : B) :
  obind m k = Ok b -> exists a, m = Ok a /\ k a = Ok b.
Proof.
  destruct m as [a|f]; simpl; intro H; [eauto | discriminate].
Qed.

Lemma lbind_Ok {A B : Type} (m : logged A) (k : A -> logged B) (b : B) (l : list log_entry) :
  lbind m k = (Ok b, l) ->
  exists a l1 l2, m = (Ok a, l1) /\ k a = (Ok b, l2) /\ l = l1 ++ l2.
Proof.
  destruct m as [[a|f] l1]; simpl; [|discriminate].
  destruct (k a) as [r l2] eqn:E. intro H. inversion H; subst.
  exists a, l1, l2. auto.
Qed.

Lemma lift_Ok {A : Type} (o : outcome A) (a : A) (l : list log_entry) :
  lift o = (Ok a, l) -> o = Ok a /\ l = [].
Proof. unfold lift. intro H. inversion H. auto. Qed.

(** Takes a successful run of a logging computation apart, bind by bind. *)
Tactic Notation "linv" hyp(H) :=
  let a := fresh "a" in
  let l1 := fresh "lg" in
  let l2 := fresh "lg" in
  let H1 := fresh "Hrun" in
  let E := fresh "Elog" in
  apply lbind_Ok in H; destruct H as (a & l1 & l2 & H1 & H & E);
  try (apply lift_Ok in H1; destruct H1 as [H1 ?]); subst.

Lemma replace_nth_length {A : Type} (l : list A) (i : nat) (a : A) :
  length (replace_nth l i a) = length l.
Proof.
  revert i. induction l as [|h t IH]; intros [|i]; simpl; auto.
Qed.

(** ** Bound extraction *)

(** C6.  The bounds of a position constraint whose box has the extents
    [a], [b], [c] are [(-e/2, e/2)] for each extent, an extent of -1 being
    read as infinity first; the bounds of an orientation constraint are
    [(-t, t)] for each axis tolerance, with the same reading of -1.  So an
    extent or tolerance of -1 gives [(-inf, +inf)] and an extent of 2 gives
    [(-1, 1)]. *)
Theorem C6_bound_extraction
    (pos_con : moveit_msgs.PositionConstraint.t) (prim : SolidPrimitive.t)
    (prims : list SolidPrimitive.t) (a b c : double) (rest : list double)
    (ori_con : moveit_msgs.OrientationConstraint.t) :
  BoundingVolume.primitives (PositionConstraint.constraint_region pos_con) = prim :: prims ->
  SolidPrimitive.dimensions prim = a :: b :: c :: rest ->
  positionConstraintMsgToBoundVector pos_con
    = Ok [box_bound a; box_bound b; box_bound c] /\
  orientationConstraintMsgToBoundVector ori_con
    = Ok [ tolerance_bound (OrientationConstraint.absolute_x_axis_tolerance ori_con);
           tolerance_bound (OrientationConstraint.absolute_y_axis_tolerance ori_con);
           tolerance_bound (OrientationConstraint.absolute_z_axis_tolerance ori_con) ] /\
  (forall e, (e =? dm1)%D = true ->
     box_bound e = mkBounds NInf PInf /\ tolerance_bound e = mkBounds NInf PInf) /\
  box_bound (Fin 2) = mkBounds (Fin (-1)) (Fin 1).
Proof.
  intros Hprims Hdims. repeat split.
  - unfold positionConstraintMsgToBoundVector. rewrite Hprims. simpl.
    rewrite Hdims. reflexivity.
  - unfold box_bound, sentinel. rewrite H. reflexivity.
  - unfold tolerance_bound, sentinel. rewrite H. reflexivity.
Qed.

Lemma C6_bound_extraction_witness :
  positionConstraintMsgToBoundVector
    (box_constraint [d2; d1; dm1] [pose_at d1 d2 d0])
  = Ok [ mkBounds (Fin (-1)) (Fin 1);
         mkBounds (Fin (-1 # 2)) (Fin (1 # 2));
         mkBounds NInf PInf ] /\
  orientationConstraintMsgToBoundVector upright_constraint
  = Ok [ mkBounds (Fin (-1 # 10)) (Fin (1 # 10));
         mkBounds (Fin (-1 # 10)) (Fin (1 # 10));
         mkBounds NInf PInf ].
Proof.
  destruct (C6_bound_extraction
              (box_constraint [d2; d1; dm1] [pose_at d1 d2 d0])
              upright_constraint eq_refl eq_refl) as (Hpos & Hori & _).
  split; [exact Hpos | exact Hori].
Defined.
(** ** What a parsed object holds *)

Lemma positionConstraintMsgToBoundVector_3 (pc : PositionConstraint.t) (b : list Bounds) :
  positionConstraintMsgToBoundVector pc = Ok b -> exists b0 b1 b2, b = [b0; b1; b2].
Proof.
  unfold positionConstraintMsgToBoundVector. intro H.
  repeat (apply obind_Ok in H; destruct H as (? & _ & H)).
  inversion H. eauto.
Qed.

Lemma orientationConstraintMsgToBoundVector_3 (oc : OrientationConstraint.t) (b : list Bounds) :
  orientationConstraintMsgToBoundVector oc = Ok b -> exists b0 b1 b2, b = [b0; b1; b2].
Proof.
  unfold orientationConstraintMsgToBoundVector. intro H.
  repeat (apply obind_Ok in H; destruct H as (? & _ & H)).
  inversion H. eauto.
Qed.

Lemma lret_Ok {A : Type} (a b : A) (l : list log_entry) : lret a = (Ok b, l) -> a = b.
Proof. unfold lret. intro H. inversion H. reflexivity. Qed.

Lemma PositionConstraint_parse_inv (c c' : BaseConstraint) (msg : Constraints.t)
    (lg : list log_entry) :
  PositionConstraint_parseConstraintMsg c msg = (Ok c', lg) ->
  exists pc b0 b1 b2 pose,
    position_constraint_0 msg = Ok pc /\
    positionConstraintMsgToBoundVector pc = Ok [b0; b1; b2] /\
    primitive_pose msg 0 = Ok pose /\
    c' = set_link_name
           (set_target_orientation
              (set_target_position (set_bounds (set_bounds c []) [b0; b1; b2])
                 (pointToEigen (Pose.position pose)))
              (quaternionMsgToEigen (Pose.orientation pose)))
           (PositionConstraint.link_name pc).
Proof.
  unfold PositionConstraint_parseConstraintMsg. intro H.
  do 13 linv H. apply lret_Ok in H. subst c'.
  pose proof Hrun1 as Hb3. apply positionConstraintMsgToBoundVector_3 in Hb3.
  destruct Hb3 as (b0 & b1 & b2 & ->).
  assert (a9 = a8) by congruence. assert (a10 = a0) by congruence. subst.
  exists a0, b0, b1, b2, a8. auto.
Qed.

Lemma OrientationConstraint_parse_inv (c c' : BaseConstraint) (msg : Constraints.t)
    (lg : list log_entry) :
  OrientationConstraint_parseConstraintMsg c msg = (Ok c', lg) ->
  exists oc b0 b1 b2,
    orientation_constraint_0 msg = Ok oc /\
    orientationConstraintMsgToBoundVector oc = Ok [b0; b1; b2] /\
    c' = set_link_name
           (set_target_orientation (set_bounds (set_bounds c []) [b0; b1; b2])
              (quaternionMsgToEigen (OrientationConstraint.orientation oc)))
           (OrientationConstraint.link_name oc).
Proof.
  unfold OrientationConstraint_parseConstraintMsg. intro H.
  do 11 linv H. apply lret_Ok in H. subst c'.
  pose proof Hrun0 as Hb3. apply orientationConstraintMsgToBoundVector_3 in Hb3.
  destruct Hb3 as (b0 & b1 & b2 & ->).
  assert (a8 = a) by congruence. assert (a9 = a) by congruence. subst.
  exists a, b0, b1, b2. auto.
Qed.


(** ** The base evaluation *)

Lemma mat_mul_rows (a b m : MatrixXd) : mat_mul a b = Ok m -> length m = length a.
Proof.
  unfold mat_mul. destruct (cols a =? rows b)%nat; [|discriminate].
  intro H. inversion H. apply length_map.
Qed.

Lemma list_length_3 {A : Type} (l : list A) :
  length l = 3%nat -> exists x y z, l = [x; y; z].
Proof.
  destruct l as [|x [|y [|z [|? ?]]]]; simpl; intro H; try discriminate. eauto.
Qed.

Lemma row_put_ok (m : MatrixXd) (i : nat) (old r : list double) :
  nth_error m i = Some old -> length r = length old ->
  row_put m i r = Ok (replace_nth m i r).
Proof.
  intros Hn Hl. unfold row_put. rewrite Hn, Hl, Nat.eqb_refl. reflexivity.
Qed.

Lemma scale_row_length (s : double) (r : list double) : length (scale_row s r) = length r.
Proof. apply length_map. Qed.

(** A scalar that is neither NaN nor infinite times zero is zero. *)
Lemma scale_row_0 (r : list double) :
  forallb is_finite r = true -> scale_row d0 r = repeat d0 (length r).
Proof.
  induction r as [|x r IH]; [reflexivity|].
  cbn [forallb]. intro H. apply andb_true_iff in H. destruct H as [Hx Hr].
  unfold scale_row in *. cbn [map length repeat].
  rewrite (dmul_0_l _ Hx), (IH Hr). reflexivity.
Qed.

Lemma penalty_within (b : Bounds) (v : double) : within b v = true -> penalty b v = d0.
Proof.
  unfold within, penalty, dgtb. intro H. apply andb_true_iff in H. destruct H as [H1 H2].
  rewrite (dleb_not_dltb _ _ H1), (dleb_not_dltb _ _ H2). reflexivity.
Qed.

Lemma penalty_violated (b : Bounds) (v : double) :
  violated b v = true -> (d0 <? penalty b v)%D = true.
Proof.
  unfold violated, penalty, dgtb. intro H.
  destruct (v <? lower b)%D eqn:E1; [apply dsub_pos, E1|].
  simpl in H. rewrite H. apply dsub_pos, H.
Qed.

Lemma penalty_0_within (b : Bounds) (v : double) :
  is_nan v = false -> is_nan (lower b) = false -> is_nan (upper b) = false ->
  penalty b v = d0 -> within b v = true.
Proof.
  intros Hv Hl Hu Hp. unfold within.
  destruct (violated b v) eqn:E.
  - apply penalty_violated in E. rewrite Hp in E. discriminate.
  - unfold violated, dgtb in E. apply orb_false_iff in E. destruct E as [E1 E2].
    rewrite (dltb_false_dleb _ _ Hv Hl E1), (dltb_false_dleb _ _ Hu Hv E2). reflexivity.
Qed.

Lemma derivative_strictly_within (b : Bounds) (v : double) :
  strictly_within b v = true -> derivative b v = d0.
Proof.
  unfold strictly_within, derivative, dgtb. intro H.
  apply andb_true_iff in H. destruct H as [H1 H2].
  rewrite (dltb_not_dltb _ _ H1), (dltb_not_dltb _ _ H2). reflexivity.
Qed.

Lemma calcErrorJacobian_rows (rm : RobotModel) (nm : Numerics) (c : BaseConstraint)
    (q : VectorXd) (J : MatrixXd) :
  class_of c = PositionConstraint \/ class_of c = OrientationConstraint ->
  calcErrorJacobian rm nm c q = Ok J -> length J = 3%nat.
Proof.
  unfold calcErrorJacobian, PositionConstraint_calcErrorJacobian,
    OrientationConstraint_calcErrorJacobian.
  intros [-> | ->] H;
    repeat (apply obind_Ok in H; destruct H as (? & _ & H));
    apply mat_mul_rows in H; exact H.
Qed.

(** C1 (amended).  For an initialized bounded position or orientation
    constraint with bounds [b0 b1 b2], at joint values [q] with error
    [e0 e1 e2]: [function] writes [penalty b_i e_i] in entry [i]; this is the
    zero vector when every error component lies within its bound, and only
    then when no error or bound is NaN; the entry of a violated component is
    positive; [jacobian] writes [derivative b_i e_i] times row [i] of the
    error Jacobian in row [i], which is a zero row when the error component
    is strictly inside its bound and that row of the error Jacobian is
    finite. *)
Theorem C1_base_function_jacobian
    (rm : RobotModel) (nm : Numerics) (cls : constraint_class) (group : string)
    (num_dofs : nat) (msg : Constraints.t) (c : BaseConstraint)
    (lg : list log_entry) (q : VectorXd) :
  cls = PositionConstraint \/ cls = OrientationConstraint ->
  init (construct cls group num_dofs) msg = (Ok c, lg) ->
  exists b0 b1 b2 e0 e1 e2,
    bounds_ c = [b0; b1; b2] /\
    calcError rm nm c q = Ok [e0; e1; e2] /\
    (forall out, length out = 3%nat ->
       function rm nm c q out = Ok [penalty b0 e0; penalty b1 e1; penalty b2 e2]) /\
    (within b0 e0 && within b1 e1 && within b2 e2 = true ->
       [penalty b0 e0; penalty b1 e1; penalty b2 e2] = [d0; d0; d0]) /\
    (forallb (fun b => negb (is_nan (lower b)) && negb (is_nan (upper b))) [b0; b1; b2]
       = true ->
     forallb (fun e => negb (is_nan e)) [e0; e1; e2] = true ->
     [penalty b0 e0; penalty b1 e1; penalty b2 e2] = [d0; d0; d0] ->
     within b0 e0 && within b1 e1 && within b2 e2 = true) /\
    (forall b e, In (b, e) [(b0, e0); (b1, e1); (b2, e2)] ->
       violated b e = true -> (d0 <? penalty b e)%D = true) /\
    (forall J out,
       calcErrorJacobian rm nm c q = Ok J ->
       Forall2 (fun j o => length j = length o) J out ->
       exists j0 j1 j2,
         J = [j0; j1; j2] /\
         jacobian rm nm c q out
           = Ok [ scale_row (derivative b0 e0) j0;
                  scale_row (derivative b1 e1) j1;
                  scale_row (derivative b2 e2) j2 ]) /\
    (forall b e j, In (b, e) [(b0, e0); (b1, e1); (b2, e2)] ->
       strictly_within b e = true -> forallb is_finite j = true ->
       scale_row (derivative b e) j = repeat d0 (length j)).
Proof.
  intros Hcls Hinit.
  assert (Hc : class_of c = cls /\
               exists b0 b1 b2 e0 e1 e2,
                 bounds_ c = [b0; b1; b2] /\ calcError rm nm c q = Ok [e0; e1; e2]).
  { unfold init, parseConstraintMsg in Hinit. destruct Hcls as [-> | ->]; simpl in Hinit.
    - apply PositionConstraint_parse_inv in Hinit.
      destruct Hinit as (pc & b0 & b1 & b2 & pose & _ & _ & _ & ->).
      split; [reflexivity|]. exists b0, b1, b2. do 3 eexists.
      split; reflexivity.
    - apply OrientationConstraint_parse_inv in Hinit.
      destruct Hinit as (oc & b0 & b1 & b2 & _ & _ & ->).
      split; [reflexivity|]. exists b0, b1, b2. do 3 eexists.
      split; reflexivity. }
  destruct Hc as (Hclass & b0 & b1 & b2 & e0 & e1 & e2 & Hb & He).
  exists b0, b1, b2, e0, e1, e2.
  assert (Hcls' : class_of c = PositionConstraint \/ class_of c = OrientationConstraint)
    by (rewrite Hclass; exact Hcls).
  split; [exact Hb|]. split; [exact He|]. split; [|split; [|split; [|split; [|split]]]].
  - intros out Hout. apply list_length_3 in Hout. destruct Hout as (o0 & o1 & o2 & ->).
    unfold function, BaseConstraint_function. rewrite He, Hb.
    destruct Hcls' as [-> | ->]; reflexivity.
  - intro H. apply andb_true_iff in H. destruct H as [H H2].
    apply andb_true_iff in H. destruct H as [H0 H1].
    rewrite (penalty_within _ _ H0), (penalty_within _ _ H1), (penalty_within _ _ H2).
    reflexivity.
  - cbn [forallb]. intros Hb' He' Hp.
    assert (Hp0 : penalty b0 e0 = d0) by congruence.
    assert (Hp1 : penalty b1 e1 = d0) by congruence.
    assert (Hp2 : penalty b2 e2 = d0) by congruence.
    repeat (rewrite andb_true_iff in Hb' || rewrite andb_true_iff in He'
            || rewrite negb_true_iff in Hb' || rewrite negb_true_iff in He').
    destruct Hb' as ((Hl0 & Hu0) & (Hl1 & Hu1) & (Hl2 & Hu2) & _).
    destruct He' as (Hn0 & Hn1 & Hn2 & _).
    rewrite (penalty_0_within _ _ Hn0 Hl0 Hu0 Hp0), (penalty_0_within _ _ Hn1 Hl1 Hu1 Hp1),
      (penalty_0_within _ _ Hn2 Hl2 Hu2 Hp2). reflexivity.
  - intros b e _. apply penalty_violated.
  - intros J out HJ HF.
    pose proof (calcErrorJacobian_rows _ _ _ _ Hcls' HJ) as HJ3.
    apply list_length_3 in HJ3. destruct HJ3 as (j0 & j1 & j2 & ->).
    exists j0, j1, j2. split; [reflexivity|].
    inversion HF as [|? o0 ? t0 L0 HF0]; subst.
    inversion HF0 as [|? o1 ? t1 L1 HF1]; subst.
    inversion HF1 as [|? o2 ? t2 L2 HF2]; subst.
    inversion HF2; subst.
    unfold jacobian, BaseConstraint_jacobian. rewrite He, HJ, Hb.
    assert (Hloop :
      for_loop 3
        (fun i out =>
           b <- index [b0; b1; b2] i ;;
           e <- index [e0; e1; e2] i ;;
           r <- row [j0; j1; j2] i ;;
           row_put out i (scale_row (derivative b e) r))
        [o0; o1; o2]
      = Ok [ scale_row (derivative b0 e0) j0;
             scale_row (derivative b1 e1) j1;
             scale_row (derivative b2 e2) j2 ]).
    { unfold for_loop. cbn [for_range obind index row nth_error].
      rewrite (@row_put_ok [o0; o1; o2] 0 o0) by
        (try reflexivity; rewrite scale_row_length; assumption).
      cbn [obind replace_nth].
      rewrite (@row_put_ok _ 1 o1) by
        (try reflexivity; rewrite scale_row_length; assumption).
      cbn [obind replace_nth].
      rewrite (@row_put_ok _ 2 o2) by
        (try reflexivity; rewrite scale_row_length; assumption).
      reflexivity. }
    destruct Hcls' as [-> | ->]; exact Hloop.
  - intros b e j _ Hs Hf. rewrite (derivative_strictly_within _ _ Hs).
    apply scale_row_0, Hf.
Qed.

Lemma C1_base_function_jacobian_witness :
  exists c lg,
    init (construct PositionConstraint "arm" 2) (box_msg "") = (Ok c, lg) /\
    function gantry series_numerics c [Fin 3; Fin 2] [NaN; NaN; NaN]
      = Ok [Fin 1; Fin 0; Fin 0] /\
    jacobian gantry series_numerics c [Fin 3; Fin 2] (mat_zero 3 2)
      = Ok [[Fin 1; Fin 0]; [Fin 0; Fin 0]; [Fin 0; Fin 0]].
Proof.
  destruct (init (construct PositionConstraint "arm" 2) (box_msg "")) as [[c|f] lg] eqn:Hinit;
    [|vm_compute in Hinit; discriminate Hinit].
  exists c, lg. split; [reflexivity|].
  destruct (@C1_base_function_jacobian gantry series_numerics PositionConstraint
              "arm" 2%nat (box_msg "") c lg [Fin 3; Fin 2] (or_introl eq_refl) Hinit)
    as (b0 & b1 & b2 & e0 & e1 & e2 & Hb & He & Hfun & _ & _ & _ & Hjac & _).
  vm_compute in Hinit. injection Hinit as Hc _. subst c.
  vm_compute in Hb. injection Hb as <- <- <-.
  vm_compute in He. injection He as <- <- <-.
  split.
  - rewrite (Hfun [NaN; NaN; NaN] eq_refl). reflexivity.
  - destruct (Hjac [[Fin 1; Fin 0]; [Fin 0; Fin 1]; [Fin 0; Fin 0]] (mat_zero 3 2))
      as (j0 & j1 & j2 & HJ & Hout).
    + reflexivity.
    + repeat constructor.
    + injection HJ as <- <- <-. rewrite Hout. reflexivity.
Defined.

(** An orientation constraint at its target orientation: the first error
    component, 0, is strictly inside its bound of 0.1 either way, and the
    first row of the Jacobian is not a zero row (the error Jacobian holds
    NaN there, and 0 times NaN is NaN). *)
Lemma C1_counterexample :
  exists c lg,
    init (construct OrientationConstraint "arm" 3) upright_msg = (Ok c, lg) /\
    nth_error (bounds_ c) 0 = Some (mkBounds (Fin (-1 # 10)) (Fin (1 # 10))) /\
    calcError wrist series_numerics c [d0; d0; d0] = Ok [d0; d0; d0] /\
    strictly_within (mkBounds (Fin (-1 # 10)) (Fin (1 # 10))) d0 = true /\
    (r <- jacobian wrist series_numerics c [d0; d0; d0] (mat_zero 3 3) ;; row r 0)
      = Ok [NaN; NaN; NaN].
Proof.
  eexists. eexists. split; [vm_compute; reflexivity|].
  repeat split; vm_compute; reflexivity.
Qed.

(** ** The classification loop *)

Lemma nth_error_replace_nth_eq {A : Type} (l : list A) (i : nat) (a : A) :
  (i < length l)%nat -> nth_error (replace_nth l i a) i = Some a.
Proof.
  revert i. induction l as [|h t IH]; intros [|i]; simpl; intro H; try lia; auto.
  apply IH. lia.
Qed.

Lemma nth_error_replace_nth_neq {A : Type} (l : list A) (i j : nat) (a : A) :
  i <> j -> nth_error (replace_nth l i a) j = nth_error l j.
Proof.
  revert i j. induction l as [|h t IH]; intros [|i] [|j]; simpl; intro H; try congruence.
  apply IH. congruence.
Qed.

Lemma classify_dimension_Ok (c : BaseConstraint) (dims : list double) (i : nat)
    (mask mask' : list bool) (lg : list log_entry) :
  classify_dimension c dims i mask = (Ok mask', lg) ->
  exists d, nth_error dims i = Some d /\
    if (d <? equality_constraint_threshold_ c)%D
    then (i < length mask)%nat /\ mask' = replace_nth mask i true /\
         lg = (if (d <? getTolerance c)%D then [below_tolerance_entry] else [])
    else mask' = mask /\ lg = [].
Proof.
  unfold classify_dimension. intro H. linv H.
  unfold index in Hrun. destruct (nth_error dims i) as [d|] eqn:Hd; [|discriminate].
  inversion Hrun; subst a. exists d. split; [reflexivity|].
  destruct (d <? equality_constraint_threshold_ c)%D.
  - linv H. apply lift_Ok in H. destruct H as [H ->].
    unfold at_put in H. destruct (i <? length mask)%nat eqn:Hi; [|discriminate].
    apply Nat.ltb_lt in Hi. inversion H. split; [exact Hi|]. split; [reflexivity|].
    destruct (d <? getTolerance c)%D; inversion Hrun0; rewrite app_nil_r; reflexivity.
  - inversion H. auto.
Qed.

Lemma classify_range_spec (c : BaseConstraint) (dims : list double) (n : nat) :
  forall (i : nat) (mask mask' : list bool) (lg : list log_entry),
  lfor_range i n (classify_dimension c dims) mask = (Ok mask', lg) ->
  length mask' = length mask /\
  (forall j, nth_error mask j = Some true -> nth_error mask' j = Some true) /\
  (forall j d, (i <= j < i + n)%nat -> nth_error dims j = Some d ->
     (d <? equality_constraint_threshold_ c)%D = true ->
     nth_error mask' j = Some true /\
     ((d <? getTolerance c)%D = true -> In below_tolerance_entry lg)).
Proof.
  induction n as [|n IH]; intros i mask mask' lg H.
  - inversion H; subst. split; [reflexivity|]. split; [auto|]. intros; lia.
  - cbn [lfor_range] in H. linv H.
    apply classify_dimension_Ok in Hrun. destruct Hrun as (d & Hd & Hstep).
    apply IH in H. destruct H as (Hlen & Hkeep & Hset).
    destruct (d <? equality_constraint_threshold_ c)%D eqn:Hthr.
    + destruct Hstep as (Hi & -> & ->). rewrite replace_nth_length in Hlen.
      split; [exact Hlen|]. split.
      * intros j Hj. apply Hkeep.
        destruct (Nat.eq_dec i j) as [<-|Hne].
        -- apply nth_error_replace_nth_eq, Hi.
        -- rewrite nth_error_replace_nth_neq by exact Hne. exact Hj.
      * intros j d' Hj Hd' Hthr'.
        destruct (Nat.eq_dec i j) as [<-|Hne].
        -- rewrite Hd in Hd'. inversion Hd'; subst d'. split.
           ++ apply Hkeep, nth_error_replace_nth_eq, Hi.
           ++ intros ->. apply in_or_app. left. left. reflexivity.
        -- destruct (Hset j d') as [Hm Hl]; [lia|assumption|assumption|].
           split; [exact Hm|]. intro Ht. apply in_or_app. right. auto.
    + destruct Hstep as (-> & ->). split; [exact Hlen|]. split; [exact Hkeep|].
      intros j d' Hj Hd' Hthr'.
      destruct (Nat.eq_dec i j) as [<-|Hne]; [congruence|].
      apply Hset; [lia|assumption|assumption].
Qed.

Lemma classify_dimensions_spec (c : BaseConstraint) (dims : list double)
    (mask : list bool) (lg : list log_entry) :
  classify_dimensions c dims = (Ok mask, lg) ->
  (exists m0 m1 m2, mask = [m0; m1; m2]) /\
  (forall j d, nth_error dims j = Some d ->
     (d <? equality_constraint_threshold_ c)%D = true ->
     nth_error mask j = Some true /\
     ((d <? getTolerance c)%D = true -> In below_tolerance_entry lg)).
Proof.
  unfold classify_dimensions, lfor_loop. intro H.
  apply classify_range_spec in H. destruct H as (Hlen & _ & Hset).
  split; [apply list_length_3, Hlen|].
  intros j d Hd. apply Hset; [|exact Hd].
  split; [lia|]. apply nth_error_Some. congruence.
Qed.

(** The loop runs to its end when no dimension after the third is under
    the threshold. *)
Lemma classify_range_ok (c : BaseConstraint) (dims : list double) (n : nat) :
  forall (i : nat) (mask : list bool),
  length mask = 3%nat -> (i + n = length dims)%nat ->
  (forall j d, (i <= j)%nat -> nth_error dims j = Some d ->
     (d <? equality_constraint_threshold_ c)%D = true -> (j < 3)%nat) ->
  exists mask' lg, lfor_range i n (classify_dimension c dims) mask = (Ok mask', lg).
Proof.
  induction n as [|n IH]; intros i mask Hlen Hin Hok.
  - exists mask, []. reflexivity.
  - cbn [lfor_range].
    assert (Hi : (i < length dims)%nat) by lia.
    destruct (nth_error dims i) as [d|] eqn:Hd; [|apply nth_error_None in Hd; lia].
    assert (Hstep : exists m1 l1, classify_dimension c dims i mask = (Ok m1, l1) /\
                                  length m1 = 3%nat).
    { unfold classify_dimension, index. rewrite Hd. cbn [lift lbind].
      destruct (d <? equality_constraint_threshold_ c)%D eqn:Hthr.
      - assert (Hi3 : (i < 3)%nat) by (apply (Hok i d); auto).
        unfold at_put. rewrite Hlen.
        destruct (i <? 3)%nat eqn:E; [|apply Nat.ltb_ge in E; lia].
        destruct (d <? getTolerance c)%D; cbn; eexists; eexists;
          (split; [reflexivity|rewrite replace_nth_length; exact Hlen]).
      - cbn. eexists; eexists; split; [reflexivity|exact Hlen]. }
    destruct Hstep as (m1 & l1 & Hm1 & Hlen1).
    destruct (IH (S i) m1 Hlen1) as (mask' & lg & Hrest); [lia| |].
    + intros j d' Hj. apply Hok. lia.
    + exists mask', (l1 ++ lg). rewrite Hm1. cbn [lbind]. rewrite Hrest. reflexivity.
Qed.

Lemma dimensions_classifiable_spec (thr : double) (dims : list double) :
  dimensions_classifiable thr dims = true ->
  forall j d, nth_error dims j = Some d -> (d <? thr)%D = true -> (j < 3)%nat.
Proof.
  unfold dimensions_classifiable. intros H j d Hd Hthr.
  destruct (Nat.lt_ge_cases j 3) as [Hlt|Hge]; [exact Hlt|exfalso].
  rewrite forallb_forall in H.
  assert (Hin : In d (skipn 3 dims)).
  { replace j with (3 + (j - 3))%nat in Hd by lia.
    rewrite <- nth_error_skipn in Hd. eapply nth_error_In, Hd. }
  apply H in Hin. rewrite Hthr in Hin. discriminate.
Qed.

Lemma classify_dimensions_ok (c : BaseConstraint) (dims : list double) :
  dimensions_classifiable (equality_constraint_threshold_ c) dims = true ->
  exists m0 m1 m2 lg, classify_dimensions c dims = (Ok [m0; m1; m2], lg).
Proof.
  intro H. unfold classify_dimensions, lfor_loop.
  destruct (@classify_range_ok c dims (length dims) 0 [false; false; false])
    as (mask & lg & Hrun); [reflexivity|reflexivity| |].
  - intros j d _. apply dimensions_classifiable_spec, H.
  - pose proof Hrun as Hlen. apply classify_range_spec in Hlen.
    destruct Hlen as (Hlen & _). apply list_length_3 in Hlen.
    destruct Hlen as (m0 & m1 & m2 & ->). exists m0, m1, m2, lg. exact Hrun.
Qed.

(** ** What a parsed equality object holds *)

(** Two reads of the same field of a message give the same value. *)
Ltac same_reads :=
  repeat match goal with
  | H1 : ?x = Ok ?a, H2 : ?x = Ok ?b |- _ =>
      first [ constr_eq a b; clear H2
            | assert (b = a) by congruence; subst b ]
  end.

(** Finds an entry in a log put together by appending. *)
Ltac in_log :=
  solve [ assumption
        | left; reflexivity
        | apply in_or_app; left; in_log
        | apply in_or_app; right; in_log
        | right; in_log ].

Lemma EqualityPositionConstraint_parse_inv (c c' : BaseConstraint) (msg : Constraints.t)
    (lg : list log_entry) :
  EqualityPositionConstraint_parseConstraintMsg c msg = (Ok c', lg) ->
  exists dims m0 m1 m2 lgm pose pc,
    primitive_dimensions_0 msg = Ok dims /\
    classify_dimensions (set_bounds c []) dims = (Ok [m0; m1; m2], lgm) /\
    (forall e, In e lgm -> In e lg) /\
    primitive_pose msg 0 = Ok pose /\
    position_constraint_0 msg = Ok pc /\
    c' = set_link_name
           (set_target_orientation
              (set_target_position
                 (set_is_dim_constrained (set_bounds c []) [m0; m1; m2])
                 (pointToEigen (Pose.position pose)))
              (quaternionMsgToEigen (Pose.orientation pose)))
           (PositionConstraint.link_name pc).
Proof.
  unfold EqualityPositionConstraint_parseConstraintMsg. intro H.
  do 13 linv H. apply lret_Ok in H. subst c'.
  pose proof Hrun1 as Hm. apply classify_dimensions_spec in Hm.
  destruct Hm as ((m0 & m1 & m2 & ->) & _).
  same_reads. do 7 eexists.
  repeat (split; [eassumption|]). split; [intros e He; in_log|].
  repeat (split; [eassumption|]). reflexivity.
Qed.

Lemma LinearSystemPositionConstraint_parse_inv (c c' : BaseConstraint)
    (msg : Constraints.t) (lg : list log_entry) :
  LinearSystemPositionConstraint_parseConstraintMsg c msg = (Ok c', lg) ->
  exists dims m0 m1 m2 lgm pose0 pose1 pc,
    primitive_dimensions_0 msg = Ok dims /\
    classify_dimensions (set_bounds c []) dims = (Ok [m0; m1; m2], lgm) /\
    (forall e, In e lgm -> In e lg) /\
    primitive_pose msg 0 = Ok pose0 /\
    primitive_pose msg 1 = Ok pose1 /\
    position_constraint_0 msg = Ok pc /\
    c' = set_link_name
           (set_target_orientation
              (set_end_position
                 (set_start_position
                    (set_is_dim_constrained (set_bounds c []) [m0; m1; m2])
                    (pointToEigen (Pose.position pose0)))
                 (pointToEigen (Pose.position pose1)))
              (quaternionMsgToEigen (Pose.orientation pose0)))
           (PositionConstraint.link_name pc).
Proof.
  unfold LinearSystemPositionConstraint_parseConstraintMsg. intro H.
  do 14 linv H. apply lret_Ok in H. subst c'.
  pose proof Hrun1 as Hm. apply classify_dimensions_spec in Hm.
  destruct Hm as ((m0 & m1 & m2 & ->) & _).
  same_reads. do 8 eexists.
  repeat (split; [eassumption|]). split; [intros e He; in_log|].
  repeat (split; [eassumption|]). reflexivity.
Qed.

(** ** Equality position constraints *)

Lemma map_const_repeat {A B : Type} (b : B) (l : list A) :
  map (fun _ => b) l = repeat b (length l).
Proof.
  induction l as [|a l IH]; simpl; [reflexivity|]. rewrite IH. reflexivity.
Qed.

Lemma Forall2_length_3 (J out : MatrixXd) :
  length J = 3%nat -> Forall2 (fun j o => length j = length o) J out ->
  exists j0 j1 j2 o0 o1 o2,
    J = [j0; j1; j2] /\ out = [o0; o1; o2] /\
    length j0 = length o0 /\ length j1 = length o1 /\ length j2 = length o2.
Proof.
  intros HJ HF. apply list_length_3 in HJ. destruct HJ as (j0 & j1 & j2 & ->).
  inversion HF as [|? o0 ? t0 L0 HF0]; subst.
  inversion HF0 as [|? o1 ? t1 L1 HF1]; subst.
  inversion HF1 as [|? o2 ? t2 L2 HF2]; subst.
  inversion HF2; subst.
  exists j0, j1, j2, o0, o1, o2. auto.
Qed.

(** C3.  For an initialized equality position constraint with mask
    [m0 m1 m2], target position [p] and target orientation [o], at joint
    values [q]: entry [i] of [function] is component [i] of the error
    [R^T (p_actual - p)] itself when dimension [i] is constrained and 0
    when it is free; row [i] of [jacobian] is row [i] of [R^T] times the
    translational Jacobian when dimension [i] is constrained and a zero row
    when it is free. *)
Theorem C3_equality_function_jacobian
    (rm : RobotModel) (nm : Numerics) (group : string) (num_dofs : nat)
    (msg : Constraints.t) (c : BaseConstraint) (lg : list log_entry) (q : VectorXd) :
  init (construct EqualityPositionConstraint group num_dofs) msg = (Ok c, lg) ->
  exists m0 m1 m2 p o,
    is_dim_constrained_ c = [m0; m1; m2] /\
    target_position_ c = Some p /\
    target_orientation_ c = Some o /\
    let Rt := m3_transpose (toRotationMatrix o) in
    let error := m3_mul_v3 Rt (v3_sub (translation (forwardKinematics rm c q)) p) in
    (forall out, length out = 3%nat ->
       function rm nm c q out
         = Ok [ if m0 then vx error else d0;
                if m1 then vy error else d0;
                if m2 then vz error else d0 ]) /\
    (forall jac out,
       (top <- topRows (robotGeometricJacobian rm c q) 3 ;; mat_mul (m3_rows Rt) top)
         = Ok jac ->
       Forall2 (fun j o => length j = length o) jac out ->
       exists j0 j1 j2 o0 o1 o2,
         jac = [j0; j1; j2] /\ out = [o0; o1; o2] /\
         jacobian rm nm c q out
           = Ok [ if m0 then j0 else repeat d0 (length o0);
                  if m1 then j1 else repeat d0 (length o1);
                  if m2 then j2 else repeat d0 (length o2) ]).
Proof.
  intro Hinit. unfold init, parseConstraintMsg in Hinit. cbn [class_of construct] in Hinit.
  apply EqualityPositionConstraint_parse_inv in Hinit.
  destruct Hinit as (dims & m0 & m1 & m2 & lgm & pose & pc & _ & _ & _ & _ & _ & ->).
  exists m0, m1, m2, (pointToEigen (Pose.position pose)),
    (quaternionMsgToEigen (Pose.orientation pose)).
  split; [reflexivity|]. split; [reflexivity|]. split; [reflexivity|].
  cbv zeta. split.
  - intros out Hout. apply list_length_3 in Hout. destruct Hout as (x0 & x1 & x2 & ->).
    destruct m0, m1, m2; reflexivity.
  - intros jac out Hjac HF.
    apply obind_Ok in Hjac. destruct Hjac as (top & Htop & Hmul).
    pose proof (mat_mul_rows _ _ Hmul) as Hrows.
    destruct (Forall2_length_3 Hrows HF)
      as (j0 & j1 & j2 & o0 & o1 & o2 & -> & -> & L0 & L1 & L2).
    exists j0, j1, j2, o0, o1, o2. split; [reflexivity|]. split; [reflexivity|].
    unfold jacobian, EqualityPositionConstraint_jacobian.
    cbn [class_of set_link_name set_target_orientation set_target_position
         set_is_dim_constrained set_bounds target_orientation_ member obind
         is_dim_constrained_].
    change (robotGeometricJacobian rm _ q) with (robotGeometricJacobian rm
      (set_link_name
         (set_target_orientation
            (set_target_position
               (set_is_dim_constrained
                  (set_bounds (construct EqualityPositionConstraint group num_dofs) [])
                  [m0; m1; m2])
               (pointToEigen (Pose.position pose)))
            (quaternionMsgToEigen (Pose.orientation pose)))
         (PositionConstraint.link_name pc)) q).
    rewrite Htop. cbn [obind]. rewrite Hmul. cbn [obind].
    unfold for_loop, setZero. cbn [map for_range].
    rewrite !map_const_repeat.
    destruct m0, m1, m2; cbn [obind index row nth_error];
      repeat (rewrite row_put_ok with (old := repeat d0 _) by
                (try reflexivity; rewrite repeat_length; assumption);
              cbn [obind replace_nth index row nth_error]);
      reflexivity.
Qed.

Lemma C3_equality_function_jacobian_witness :
  exists c lg,
    init (construct EqualityPositionConstraint "arm" 2)
         (plane_msg "use_equality_constraints") = (Ok c, lg) /\
    function gantry series_numerics c [Fin 3; Fin 2] [NaN; NaN; NaN]
      = Ok [Fin 0; Fin 2; Fin 0] /\
    jacobian gantry series_numerics c [Fin 3; Fin 2] (mat_zero 3 2)
      = Ok [[Fin 0; Fin 0]; [Fin 0; Fin 1]; [Fin 0; Fin 0]].
Proof.
  destruct (init (construct EqualityPositionConstraint "arm" 2)
                 (plane_msg "use_equality_constraints")) as [[c|f] lg] eqn:Hinit;
    [|vm_compute in Hinit; discriminate Hinit].
  exists c, lg. split; [reflexivity|].
  destruct (@C3_equality_function_jacobian gantry series_numerics "arm" 2%nat
              (plane_msg "use_equality_constraints") c lg [Fin 3; Fin 2] Hinit)
    as (m0 & m1 & m2 & p & o & Hm & Hp & Ho & Hfun & Hjac).
  vm_compute in Hinit. injection Hinit as Hc _. subst c.
  vm_compute in Hm. injection Hm as <- <- <-.
  vm_compute in Hp. injection Hp as <-.
  vm_compute in Ho. injection Ho as <-.
  split.
  - rewrite (Hfun [NaN; NaN; NaN] eq_refl). reflexivity.
  - destruct (Hjac [[Fin 1; Fin 0]; [Fin 0; Fin 1]; [Fin 0; Fin 0]] (mat_zero 3 2))
      as (j0 & j1 & j2 & o0 & o1 & o2 & HJ & HO & Hout).
    + reflexivity.
    + repeat constructor.
    + rewrite Hout. injection HJ as <- <- <-. injection HO as <- <- <-. reflexivity.
Defined.

(** ** The angle-axis operator at angle zero *)

Lemma dmul_0_r_cases (x : double) : (x * d0)%D = d0 \/ (x * d0)%D = NaN.
Proof.
  destruct x; [left|right|right|right]; try reflexivity.
  unfold d0. cbn [dmul]. f_equal. change 0%Q with (Qred 0) at 2.
  apply Qred_complete. ring.
Qed.

Lemma dadd_0_nan_cases (x y : double) :
  (x = d0 \/ x = NaN) -> (y = d0 \/ y = NaN) -> (x + y)%D = d0 \/ (x + y)%D = NaN.
Proof. intros [-> | ->] [-> | ->]; [left|right|right|right]; reflexivity. Qed.

Lemma dmul_0_nan_cases (x y : double) :
  (x = d0 \/ x = NaN) -> (y = d0 \/ y = NaN) -> (x * y)%D = d0 \/ (x * y)%D = NaN.
Proof. intros [-> | ->] [-> | ->]; [left|right|right|right]; reflexivity. Qed.

Lemma ddiv_0_nan_by_0 (x : double) : (x = d0 \/ x = NaN) -> (x / (d0 * d0))%D = NaN.
Proof. intros [-> | ->]; reflexivity. Qed.

Lemma dadd_nan_r (x : double) : (x + NaN)%D = NaN.
Proof. destruct x; reflexivity. Qed.

Lemma v3_dot_0_nan (a b : Vector3d) :
  (vx a = d0 \/ vx a = NaN) -> (vy a = d0 \/ vy a = NaN) -> (vz a = d0 \/ vz a = NaN) ->
  (vx b = d0 \/ vx b = NaN) -> (vy b = d0 \/ vy b = NaN) -> (vz b = d0 \/ vz b = NaN) ->
  v3_dot a b = d0 \/ v3_dot a b = NaN.
Proof.
  intros. unfold v3_dot.
  repeat (apply dadd_0_nan_cases || apply dmul_0_nan_cases); assumption.
Qed.

(** C5.  At rotation angle zero, whatever the axis and whatever sine and
    cosine return, every entry of the operator computed by
    [angularVelocityToAngleAxis] is NaN: the quotient by [t * t] is 0/0. *)
Theorem C5_zero_angle_all_nan (nm : Numerics) (axis : Vector3d) :
  m3_coeffs (angularVelocityToAngleAxis nm d0 axis) = repeat NaN 9.
Proof.
  unfold angularVelocityToAngleAxis.
  change (dabs d0) with d0.
  set (C := (d1 - dhalf * d0 * std_sin nm d0 / (d1 - std_cos nm d0))%D).
  set (r := m3_scale_r _ d0).
  assert (Hr : forall f, In f [vx; vy; vz] -> forall g, In g [row0; row1; row2] ->
                 f (g r) = d0 \/ f (g r) = NaN).
  { intros f Hf g Hg. unfold r, m3_scale_r, m3_map, v3_map.
    cbn [In] in Hf, Hg.
    destruct Hf as [<- | [<- | [<- | []]]]; destruct Hg as [<- | [<- | [<- | []]]];
      cbn [vx vy vz row0 row1 row2]; apply dmul_0_r_cases. }
  assert (Hrr : forall f, In f [vx; vy; vz] -> forall g, In g [row0; row1; row2] ->
                 f (g (m3_mul r r)) = d0 \/ f (g (m3_mul r r)) = NaN).
  { intros f Hf g Hg. unfold m3_mul, m3_mul_v3, m3_transpose.
    cbn [In] in Hf, Hg.
    destruct Hf as [<- | [<- | [<- | []]]]; destruct Hg as [<- | [<- | [<- | []]]];
      cbn [vx vy vz row0 row1 row2];
      apply v3_dot_0_nan; cbn [vx vy vz]; apply Hr; cbn [In]; tauto. }
  unfold m3_coeffs, v3_coeffs, m3_add, m3_sub, m3_scale_r, m3_div, m3_map2, m3_map,
    v3_map2, v3_map.
  cbn [vx vy vz row0 row1 row2 app repeat].
  repeat match goal with
  | |- context [(?f (?g (m3_mul r r)) / (d0 * d0))%D] =>
      rewrite (@ddiv_0_nan_by_0 (f (g (m3_mul r r)))) by (apply Hrr; cbn [In]; tauto)
  end.
  cbn [dmul]. rewrite !dadd_nan_r. reflexivity.
Qed.

(** The failing input as the evaluator meets it: a wrist held at the target
    orientation.  The error is the zero vector, and the error Jacobian and
    the Jacobian of the constraint hold nothing but NaN. *)
Example C5_wrist_at_target :
  exists c lg,
    createOMPLConstraint wrist "arm" upright_msg = (Ok (Some c), lg) /\
    calcError wrist series_numerics c [d0; d0; d0] = Ok [d0; d0; d0] /\
    calcErrorJacobian wrist series_numerics c [d0; d0; d0] = Ok (repeat (repeat NaN 3) 3) /\
    jacobian wrist series_numerics c [d0; d0; d0] (mat_zero 3 3)
      = Ok (repeat (repeat NaN 3) 3).
Proof.
  eexists. eexists. split; [vm_compute; reflexivity|].
  repeat split; vm_compute; reflexivity.
Qed.

(** ** Linear system position constraints *)

(** The matrix of the specification is the derivative of the residuals:
    moving the position by [h] changes the residuals by the matrix applied
    to [h]. *)
Lemma residual_derivative_is_derivative (sx sy sz ex ey ez px py pz hx hy hz : Q) :
  let s := fin3 sx sy sz in
  let e := fin3 ex ey ez in
  let p := fin3 px py pz in
  let h := fin3 hx hy hz in
  let r := LinearSystemPositionConstraint_residual s e in
  [ (ux (r (v3_add p h)) - ux (r p))%D; (uy (r (v3_add p h)) - uy (r p))%D ]
  = map (fun row => dot row (v3_coeffs h)) (residual_derivative s e).
Proof.
  cbv zeta. unfold residual_derivative, LinearSystemPositionConstraint_residual, fin3,
    v3_add, v3_map2, dot, v3_coeffs, dsub, d0.
  cbn [map combine fold_left fst snd vx vy vz ux uy dadd dneg dmul].
  f_equal; [|f_equal]; f_equal; apply Qred_complete;
    repeat rewrite Qred_correct; ring.
Qed.

Lemma assignments_on_default (s e : Vector3d) :
  dresidual_dcartesianPosition_assignments s e MatrixXd_default = Fail IndexOutOfBounds.
Proof. reflexivity. Qed.

(** Had the matrix been given its two rows and three columns, the six
    assignments would still leave column 2 untouched and keep only the
    last value written to (0, 1) and to (1, 1). *)
Lemma assignments_on_zero_2x3 (s e : Vector3d) :
  dresidual_dcartesianPosition_assignments s e (mat_zero 2 3)
  = Ok [ [ vy s - vy e; d0; d0 ]; [ d0; vy e - vy s; d0 ] ]%D.
Proof. reflexivity. Qed.

Lemma LinearSystemPositionConstraint_jacobian_fails (rm : RobotModel) (c : BaseConstraint)
    (q : VectorXd) (out : MatrixXd) :
  exists f, LinearSystemPositionConstraint_jacobian rm c q out = Fail f.
Proof.
  unfold LinearSystemPositionConstraint_jacobian.
  destruct (member (target_orientation_ c)) as [o|f]; [|exists f; reflexivity].
  cbn [obind].
  destruct (topRows (robotGeometricJacobian rm c q) 3) as [top|f]; [|exists f; reflexivity].
  cbn [obind].
  destruct (mat_mul _ top) as [jac|f]; [|exists f; reflexivity].
  cbn [obind].
  destruct (member (start_position_ c)) as [s|f]; [|exists f; reflexivity].
  cbn [obind].
  destruct (member (end_position_ c)) as [e|f]; [|exists f; reflexivity].
  exists IndexOutOfBounds. reflexivity.
Qed.

(** C10.  The matrix the assignments of
    [LinearSystemPositionConstraint::jacobian] write to is default
    constructed, with no rows and no columns: the first assignment is
    already out of bounds, whatever the start and end positions, and
    [jacobian] never returns a matrix. *)
Theorem C10_assignments_out_of_bounds (start_position end_position : Vector3d) :
  rows MatrixXd_default = 0%nat /\ cols MatrixXd_default = 0%nat /\
  coeff_put MatrixXd_default 0 0 (vy start_position - vy end_position)%D
    = Fail IndexOutOfBounds /\
  dresidual_dcartesianPosition_assignments start_position end_position MatrixXd_default
    = Fail IndexOutOfBounds /\
  (forall rm nm c q out, class_of c = LinearSystemPositionConstraint ->
     exists f, jacobian rm nm c q out = Fail f).
Proof.
  repeat split.
  intros rm nm c q out Hc. unfold jacobian. rewrite Hc.
  apply LinearSystemPositionConstraint_jacobian_fails.
Qed.

(** C4.  For a line from (0, 0, 0) to (1, 2, 3) on the gantry, [jacobian]
    returns no matrix at all (the first assignment is out of bounds); and on
    a matrix of two rows and three columns its assignments give
    [(-2, 0, 0), (0, 2, 0)], where the derivative of the residuals is
    [(-2, 1, 0), (0, -3, 2)]. *)
Theorem C4_linear_system_jacobian_diverges :
  exists c lg,
    createOMPLConstraint gantry "arm" (plane_msg "linear_system_constraints")
      = (Ok (Some c), lg) /\
    start_position_ c = Some (fin3 0 0 0) /\
    end_position_ c = Some (fin3 1 2 3) /\
    jacobian gantry series_numerics c [Fin 3; Fin 2] (mat_zero 3 2)
      = Fail IndexOutOfBounds /\
    dresidual_dcartesianPosition_assignments (fin3 0 0 0) (fin3 1 2 3) (mat_zero 2 3)
      = Ok [ [Fin (-2); Fin 0; Fin 0]; [Fin 0; Fin 2; Fin 0] ] /\
    residual_derivative (fin3 0 0 0) (fin3 1 2 3)
      = [ [Fin (-2); Fin 1; Fin 0]; [Fin 0; Fin (-3); Fin 2] ].
Proof.
  eexists. eexists. split; [vm_compute; reflexivity|].
  repeat split; vm_compute; reflexivity.
Qed.

(** C9.  An initialized linear system constraint declares three
    constraint functions, and its [function] assigns a vector of two
    entries to the output of three: the assignment fails, and no residual of
    three entries is written. *)
Theorem C9_linear_system_function_size
    (rm : RobotModel) (nm : Numerics) (group : string) (num_dofs : nat)
    (msg : Constraints.t) (c : BaseConstraint) (lg : list log_entry)
    (q out : VectorXd) :
  init (construct LinearSystemPositionConstraint group num_dofs) msg = (Ok c, lg) ->
  length out = 3%nat ->
  getCoDimension c = 3%nat /\
  function rm nm c q out = Fail SizeMismatch /\
  (forall s e p,
     length (v2_coeffs (LinearSystemPositionConstraint_residual s e p)) = 2%nat).
Proof.
  intros Hinit Hout. unfold init, parseConstraintMsg in Hinit.
  cbn [class_of construct] in Hinit.
  apply LinearSystemPositionConstraint_parse_inv in Hinit.
  destruct Hinit as (dims & m0 & m1 & m2 & lgm & pose0 & pose1 & pc & _ & _ & _ & _ & _ & _ & ->).
  split; [reflexivity|]. split; [|reflexivity].
  unfold function, LinearSystemPositionConstraint_function, ref_assign_vec.
  cbn [class_of set_link_name set_target_orientation set_end_position set_start_position
       set_is_dim_constrained set_bounds construct target_orientation_ start_position_
       end_position_ member obind v2_coeffs length].
  rewrite Hout. reflexivity.
Qed.

Lemma C9_linear_system_function_size_witness :
  exists c lg,
    init (construct LinearSystemPositionConstraint "arm" 2)
         (plane_msg "linear_system_constraints") = (Ok c, lg) /\
    getCoDimension c = 3%nat /\
    function gantry series_numerics c [Fin 3; Fin 2] [NaN; NaN; NaN] = Fail SizeMismatch.
Proof.
  destruct (init (construct LinearSystemPositionConstraint "arm" 2)
                 (plane_msg "linear_system_constraints")) as [[c|f] lg] eqn:Hinit;
    [|vm_compute in Hinit; discriminate Hinit].
  exists c, lg. split; [reflexivity|].
  destruct (@C9_linear_system_function_size gantry series_numerics "arm" 2%nat
              (plane_msg "linear_system_constraints") c lg [Fin 3; Fin 2]
              [NaN; NaN; NaN] Hinit eq_refl) as (Hk & Hf & _).
  split; [exact Hk|exact Hf].
Defined.

(** ** The factory *)

Lemma list_length_ge_3 {A : Type} (l : list A) :
  (3 <=? length l)%nat = true -> exists a b c rest, l = a :: b :: c :: rest.
Proof.
  destruct l as [|a [|b [|c rest]]]; cbn; intro H; try discriminate. eauto.
Qed.

Lemma list_length_ge_1 {A : Type} (l : list A) :
  (1 <=? length l)%nat = true -> exists a rest, l = a :: rest.
Proof.
  destruct l as [|a rest]; cbn; intro H; try discriminate. eauto.
Qed.

Lemma list_length_ge_2 {A : Type} (l : list A) :
  (2 <=? length l)%nat = true -> exists a b rest, l = a :: b :: rest.
Proof.
  destruct l as [|a [|b rest]]; cbn; intro H; try discriminate. eauto.
Qed.

(** A well-formed first entry lets the parser of the class run to its end. *)
Lemma init_well_formed (cls : constraint_class) (group : string) (num_dofs : nat)
    (msg : Constraints.t) (pc : PositionConstraint.t) (pcs : list PositionConstraint.t) :
  Constraints.position_constraints msg = pc :: pcs ->
  well_formed_for cls pc = true ->
  exists c lg, init (construct cls group num_dofs) msg = (Ok c, lg).
Proof.
  intros Hp Hwf. destruct msg as [name pcs0 ocs]. cbn in Hp. subst pcs0.
  destruct pc as [link [prims poses]]. unfold well_formed_for in Hwf.
  cbn [PositionConstraint.constraint_region BoundingVolume.primitives
       BoundingVolume.primitive_poses] in Hwf.
  destruct prims as [|[dims] prims]; [discriminate|].
  cbn [SolidPrimitive.dimensions] in Hwf.
  unfold init, parseConstraintMsg. cbn [class_of construct].
  destruct cls; try discriminate; apply andb_true_iff in Hwf; destruct Hwf as [Hd Hposes].
  - apply list_length_ge_3 in Hd. destruct Hd as (a & b & c & rest & ->).
    apply list_length_ge_1 in Hposes. destruct Hposes as (p0 & poses' & ->).
    eexists. eexists. reflexivity.
  - apply list_length_ge_1 in Hposes. destruct Hposes as (p0 & poses' & ->).
    destruct (@classify_dimensions_ok
                (set_bounds (construct EqualityPositionConstraint group num_dofs) []) dims Hd)
      as (m0 & m1 & m2 & lgm & Hm).
    unfold EqualityPositionConstraint_parseConstraintMsg.
    cbn [log lbind lift primitive_dimensions_0 position_constraint_0 at_ nth_error obind
         Constraints.position_constraints PositionConstraint.constraint_region
         BoundingVolume.primitives SolidPrimitive.dimensions].
    unfold construct in Hm |- *. rewrite Hm.
    eexists. eexists. reflexivity.
  - apply list_length_ge_2 in Hposes. destruct Hposes as (p0 & p1 & poses' & ->).
    destruct (@classify_dimensions_ok
                (set_bounds (construct LinearSystemPositionConstraint group num_dofs) [])
                dims Hd)
      as (m0 & m1 & m2 & lgm & Hm).
    unfold LinearSystemPositionConstraint_parseConstraintMsg.
    cbn [log lbind lift primitive_dimensions_0 position_constraint_0 at_ nth_error obind
         Constraints.position_constraints PositionConstraint.constraint_region
         BoundingVolume.primitives SolidPrimitive.dimensions].
    unfold construct in Hm |- *. rewrite Hm.
    eexists. eexists. reflexivity.
Qed.

(** With position entries and no orientation entry, the factory returns
    what [init] makes of a fresh object of the selected class, and the log of
    [init] is part of its log. *)
Lemma createOMPLConstraint_position_only (rm : RobotModel) (group : string)
    (msg : Constraints.t) (pc : PositionConstraint.t) (pcs : list PositionConstraint.t)
    (r : outcome BaseConstraint) (lgi : list log_entry) :
  Constraints.position_constraints msg = pc :: pcs ->
  Constraints.orientation_constraints msg = [] ->
  init (construct (selected_class (Constraints.name msg)) group (getVariableCount rm group))
       msg = (r, lgi) ->
  exists lg, createOMPLConstraint rm group msg = (returned r, lg) /\
             (forall e, In e lgi -> In e lg).
Proof.
  intros Hp Ho Hinit. unfold createOMPLConstraint. rewrite Hp, Ho.
  cbn [length Nat.ltb Nat.leb andb]. unfold selected_class in Hinit.
  destruct (String.eqb (Constraints.name msg) "use_equality_constraints");
    [|destruct (String.eqb (Constraints.name msg) "linear_system_constraints")];
    destruct pcs; cbn [log_when Nat.ltb Nat.leb length log lret lbind];
    rewrite Hinit; destruct r; cbn [returned];
    (eexists; split; [reflexivity|intros e He; in_log]).
Qed.

Lemma createOMPLConstraint_orientation_only (rm : RobotModel) (group : string)
    (msg : Constraints.t) (oc : OrientationConstraint.t)
    (ocs : list OrientationConstraint.t) :
  Constraints.position_constraints msg = [] ->
  Constraints.orientation_constraints msg = oc :: ocs ->
  exists c lg lgi,
    createOMPLConstraint rm group msg = (Ok (Some c), lg) /\
    init (construct OrientationConstraint group (getVariableCount rm group)) msg
      = (Ok c, lgi) /\
    In (mkLog ERROR "Orientation constraints are not yet supported.") lg.
Proof.
  intros Hp Ho. unfold createOMPLConstraint. rewrite Hp, Ho.
  destruct msg as [name pcs0 ocs0]. cbn in Hp, Ho. subst.
  destruct ocs; (eexists; eexists; eexists; split; [reflexivity|];
                 split; [reflexivity|cbn; tauto]).
Qed.

Lemma init_class (c0 c : BaseConstraint) (msg : Constraints.t) (lg : list log_entry) :
  init c0 msg = (Ok c, lg) -> class_of c = class_of c0.
Proof.
  unfold init, parseConstraintMsg. destruct (class_of c0) eqn:E; intro H.
  - apply PositionConstraint_parse_inv in H.
    destruct H as (? & ? & ? & ? & ? & _ & _ & _ & ->). exact E.
  - apply EqualityPositionConstraint_parse_inv in H.
    destruct H as (? & ? & ? & ? & ? & ? & ? & _ & _ & _ & _ & _ & ->). exact E.
  - apply LinearSystemPositionConstraint_parse_inv in H.
    destruct H as (? & ? & ? & ? & ? & ? & ? & ? & _ & _ & _ & _ & _ & _ & ->). exact E.
  - apply OrientationConstraint_parse_inv in H.
    destruct H as (? & ? & ? & ? & _ & _ & ->). exact E.
Qed.

(** C7 (amended).  The factory returns no object when both lists are
    non-empty and when both are empty.  With position entries only, it
    returns the initialized object of the class selected by the name tag
    (equality for [use_equality_constraints], linear system for
    [linear_system_constraints], bounded position for any other name),
    provided the first entry has what the parser of that class reads.  With
    orientation entries only, it returns an initialized orientation
    constraint and logs at error level that these are not supported. *)
Theorem C7_factory (rm : RobotModel) (group : string) (msg : Constraints.t) :
  (Constraints.position_constraints msg <> [] ->
   Constraints.orientation_constraints msg <> [] ->
   fst (createOMPLConstraint rm group msg) = Ok None) /\
  (Constraints.position_constraints msg = [] ->
   Constraints.orientation_constraints msg = [] ->
   fst (createOMPLConstraint rm group msg) = Ok None) /\
  (forall pc pcs,
     Constraints.position_constraints msg = pc :: pcs ->
     Constraints.orientation_constraints msg = [] ->
     well_formed_for (selected_class (Constraints.name msg)) pc = true ->
     exists c lg lgi,
       createOMPLConstraint rm group msg = (Ok (Some c), lg) /\
       init (construct (selected_class (Constraints.name msg)) group
               (getVariableCount rm group)) msg = (Ok c, lgi) /\
       class_of c = selected_class (Constraints.name msg)) /\
  (forall oc ocs,
     Constraints.position_constraints msg = [] ->
     Constraints.orientation_constraints msg = oc :: ocs ->
     exists c lg lgi,
       createOMPLConstraint rm group msg = (Ok (Some c), lg) /\
       init (construct OrientationConstraint group (getVariableCount rm group)) msg
         = (Ok c, lgi) /\
       class_of c = OrientationConstraint /\
       In (mkLog ERROR "Orientation constraints are not yet supported.") lg) /\
  selected_class "use_equality_constraints" = EqualityPositionConstraint /\
  selected_class "linear_system_constraints" = LinearSystemPositionConstraint /\
  (forall name, name <> "use_equality_constraints"%string ->
     name <> "linear_system_constraints"%string ->
     selected_class name = PositionConstraint).
Proof.
  split; [|split; [|split; [|split; [|split; [|split]]]]].
  - intros Hp Ho. unfold createOMPLConstraint.
    destruct (Constraints.position_constraints msg) as [|pc [|pc' pcs]]; [congruence| |];
      (destruct (Constraints.orientation_constraints msg) as [|oc [|oc' ocs]];
       [congruence|reflexivity|reflexivity]).
  - intros Hp Ho. unfold createOMPLConstraint. rewrite Hp, Ho. reflexivity.
  - intros pc pcs Hp Ho Hwf.
    destruct (init_well_formed _ group (getVariableCount rm group) _ Hp Hwf)
      as (c & lgi & Hinit).
    destruct (createOMPLConstraint_position_only rm group _ Hp Ho Hinit) as (lg & Hc & _).
    exists c, lg, lgi. split; [exact Hc|]. split; [exact Hinit|].
    apply init_class in Hinit. exact Hinit.
  - intros oc ocs Hp Ho.
    destruct (createOMPLConstraint_orientation_only rm group _ Hp Ho)
      as (c & lg & lgi & Hc & Hinit & Hlog).
    exists c, lg, lgi. split; [exact Hc|]. split; [exact Hinit|].
    split; [|exact Hlog]. apply init_class in Hinit. exact Hinit.
  - reflexivity.
  - reflexivity.
  - intros name H1 H2. unfold selected_class.
    apply String.eqb_neq in H1. apply String.eqb_neq in H2. rewrite H1, H2. reflexivity.
Qed.

Lemma C7_factory_witness :
  fst (createOMPLConstraint gantry "arm" both_msg) = Ok None /\
  fst (createOMPLConstraint gantry "arm" empty_msg) = Ok None /\
  (exists c lg,
     createOMPLConstraint gantry "arm" (plane_msg "linear_system_constraints")
       = (Ok (Some c), lg) /\
     class_of c = LinearSystemPositionConstraint) /\
  (exists c lg,
     createOMPLConstraint wrist "arm" upright_msg = (Ok (Some c), lg) /\
     class_of c = OrientationConstraint).
Proof.
  split; [|split; [|split]].
  - destruct (C7_factory gantry "arm" both_msg) as (Hboth & _).
    apply Hboth; discriminate.
  - destruct (C7_factory gantry "arm" empty_msg) as (_ & Hnone & _).
    apply Hnone; reflexivity.
  - destruct (C7_factory gantry "arm" (plane_msg "linear_system_constraints"))
      as (_ & _ & Hpos & _).
    destruct (Hpos _ _ eq_refl eq_refl eq_refl) as (c & lg & lgi & Hc & _ & Hcls).
    exists c, lg. split; [exact Hc|exact Hcls].
  - destruct (C7_factory wrist "arm" upright_msg) as (_ & _ & _ & Hori & _).
    destruct (Hori _ _ eq_refl eq_refl) as (c & lg & lgi & Hc & _ & Hcls & _).
    exists c, lg. split; [exact Hc|exact Hcls].
Defined.

(** With position entries only and the name [use_equality_constraints],
    a first entry whose region has no primitive makes the factory throw:
    no object is returned, initialized or not. *)
Lemma C7_counterexample :
  Constraints.position_constraints (no_primitive_msg "use_equality_constraints") <> [] /\
  Constraints.orientation_constraints (no_primitive_msg "use_equality_constraints") = [] /\
  fst (createOMPLConstraint gantry "arm" (no_primitive_msg "use_equality_constraints"))
    = Fail OutOfRange /\
  ~ (exists c lg,
       createOMPLConstraint gantry "arm" (no_primitive_msg "use_equality_constraints")
       = (Ok (Some c), lg)).
Proof.
  split; [discriminate|]. split; [reflexivity|]. split; [reflexivity|].
  intros (c & lg & H). vm_compute in H. discriminate H.
Qed.

(** ** Dimensions under the evaluation tolerance *)

(** C8 (amended).  When the factory builds an equality or linear system
    constraint from a well-formed first entry, a dimension that is
    classified as an equality and lies under the evaluation tolerance is
    reported as an error-level log entry; initialization completes all the
    same, the dimension is marked constrained, and the initialized
    constraint is returned. *)
Theorem C8_thin_dimension_logged
    (rm : RobotModel) (group : string) (msg : Constraints.t)
    (pc : PositionConstraint.t) (pcs : list PositionConstraint.t)
    (dims : list double) (i : nat) (d : double) :
  Constraints.position_constraints msg = pc :: pcs ->
  Constraints.orientation_constraints msg = [] ->
  selected_class (Constraints.name msg) = EqualityPositionConstraint \/
  selected_class (Constraints.name msg) = LinearSystemPositionConstraint ->
  well_formed_for (selected_class (Constraints.name msg)) pc = true ->
  primitive_dimensions_0 msg = Ok dims ->
  nth_error dims i = Some d ->
  (d <? Fin (1 # 1000))%D = true ->
  (d <? CONSTRAINT_PROJECTION_TOLERANCE)%D = true ->
  exists c lg,
    createOMPLConstraint rm group msg = (Ok (Some c), lg) /\
    In below_tolerance_entry lg /\
    nth_error (is_dim_constrained_ c) i = Some true.
Proof.
  intros Hp Ho Hcls Hwf Hdims Hd Hthr Htol.
  destruct (init_well_formed _ group (getVariableCount rm group) _ Hp Hwf)
    as (c & lgi & Hinit).
  destruct (createOMPLConstraint_position_only rm group _ Hp Ho Hinit) as (lg & Hc & Hlog).
  exists c, lg. split; [exact Hc|].
  unfold init, parseConstraintMsg in Hinit.
  destruct Hcls as [Hcls | Hcls]; rewrite Hcls in Hinit; cbn [class_of construct] in Hinit.
  - apply EqualityPositionConstraint_parse_inv in Hinit.
    destruct Hinit as (dims' & m0 & m1 & m2 & lgm & pose & pc' & Hdims' & Hm & Hin & _ & _ & ->).
    same_reads. apply classify_dimensions_spec in Hm. destruct Hm as (_ & Hm).
    destruct (Hm i d Hd Hthr) as (Hmask & Hentry).
    split; [apply Hlog, Hin, Hentry, Htol|exact Hmask].
  - apply LinearSystemPositionConstraint_parse_inv in Hinit.
    destruct Hinit
      as (dims' & m0 & m1 & m2 & lgm & pose0 & pose1 & pc' & Hdims' & Hm & Hin & _ & _ & _ & ->).
    same_reads. apply classify_dimensions_spec in Hm. destruct Hm as (_ & Hm).
    destruct (Hm i d Hd Hthr) as (Hmask & Hentry).
    split; [apply Hlog, Hin, Hentry, Htol|exact Hmask].
Qed.

Lemma C8_thin_dimension_logged_witness :
  exists c lg,
    createOMPLConstraint gantry "arm" (thin_plane_msg "linear_system_constraints")
      = (Ok (Some c), lg) /\
    In below_tolerance_entry lg /\
    nth_error (is_dim_constrained_ c) 1 = Some true.
Proof.
  exact (@C8_thin_dimension_logged gantry "arm" (thin_plane_msg "linear_system_constraints")
           _ _ _ 1%nat _ eq_refl eq_refl (or_intror eq_refl) eq_refl eq_refl eq_refl
           eq_refl eq_refl).
Defined.

(** A plane of thickness 1e-5, under the tolerance 1e-4: the factory
    returns the initialized equality constraint, with y constrained. *)
Lemma C8_counterexample :
  exists c lg,
    createOMPLConstraint gantry "arm" (thin_plane_msg "use_equality_constraints")
      = (Ok (Some c), lg) /\
    primitive_dimensions_0 (thin_plane_msg "use_equality_constraints")
      = Ok [d1; Fin (1 # 100000); d1] /\
    (Fin (1 # 100000) <? equality_constraint_threshold_ c)%D = true /\
    (Fin (1 # 100000) <? getTolerance c)%D = true /\
    is_dim_constrained_ c = [false; true; false] /\
    target_position_ c = Some (fin3 0 0 0).
Proof.
  eexists. eexists. split; [vm_compute; reflexivity|].
  repeat split; vm_compute; reflexivity.
Qed.

(** * Further properties *)

(** ** The penalty as a distance *)

Lemma dleb_0_of_dltb (x : double) : (d0 <? x)%D = true -> (d0 <=? x)%D = true.
Proof. dcases. Qed.

(** The penalty is never negative and never NaN, whatever the bounds (also
    bounds given in the wrong order) and whatever the value. *)
Theorem penalty_nonnegative (b : Bounds) (v : double) :
  (d0 <=? penalty b v)%D = true.
Proof.
  unfold penalty, dgtb.
  destruct (v <? lower b)%D eqn:E1; [apply dleb_0_of_dltb, dsub_pos, E1|].
  destruct (upper b <? v)%D eqn:E2; [apply dleb_0_of_dltb, dsub_pos, E2|].
  reflexivity.
Qed.



(** ** Extracted bounds *)

Lemma positionConstraintMsgToBoundVector_eq (pos_con : PositionConstraint.t)
    (prim : SolidPrimitive.t) (prims : list SolidPrimitive.t) (a b c : double)
    (rest : list double) :
  BoundingVolume.primitives (PositionConstraint.constraint_region pos_con) = prim :: prims ->
  SolidPrimitive.dimensions prim = a :: b :: c :: rest ->
  positionConstraintMsgToBoundVector pos_con = Ok [box_bound a; box_bound b; box_bound c].
Proof.
  intros Hprims Hdims. unfold positionConstraintMsgToBoundVector.
  rewrite Hprims. cbn [at_ nth_error obind]. rewrite Hdims. reflexivity.
Qed.


Lemma Qeq_bool_minus1_neg (q : Q) : Qeq_bool q (-1) = true -> (q < 0)%Q.
Proof. intro H. apply Qeq_bool_iff in H. lra. Qed.

Lemma ddiv_2 (a : Q) : (Fin a / d2)%D = Fin (Qred (a / 2)).
Proof. reflexivity. Qed.

Lemma box_bound_finite (q : Q) :
  Qeq_bool q (-1) = false ->
  box_bound (Fin q) = mkBounds (Fin (Qred (- q / 2))) (Fin (Qred (q / 2))).
Proof.
  intro E. unfold box_bound, sentinel, dm1. cbn [deqb]. rewrite E.
  cbn [dneg]. rewrite !ddiv_2. reflexivity.
Qed.

Lemma box_bound_unconstrained (e : double) :
  (e =? dm1)%D = true -> box_bound e = mkBounds NInf PInf.
Proof. intro H. unfold box_bound, sentinel. rewrite H. reflexivity. Qed.

Lemma tolerance_bound_finite (q : Q) :
  Qeq_bool q (-1) = false -> tolerance_bound (Fin q) = mkBounds (Fin (- q)) (Fin q).
Proof.
  intro E. unfold tolerance_bound, sentinel, dm1. cbn [deqb]. rewrite E. reflexivity.
Qed.

Lemma tolerance_bound_unconstrained (e : double) :
  (e =? dm1)%D = true -> tolerance_bound e = mkBounds NInf PInf.
Proof. intro H. unfold tolerance_bound, sentinel. rewrite H. reflexivity. Qed.

Lemma box_bound_contains_target (e : double) :
  (d0 <=? e)%D = true \/ (e =? dm1)%D = true -> within (box_bound e) d0 = true.
Proof.
  intros [H | H]; [|rewrite (box_bound_unconstrained _ H); reflexivity].
  destruct e as [q| | |]; try discriminate H; [|reflexivity].
  destruct (Qeq_bool q (-1)) eqn:E.
  - apply Qeq_bool_minus1_neg in E. unfold d0 in H. cbn [dleb] in H. qbool. lra.
  - rewrite (box_bound_finite _ E). unfold within, d0 in *. cbn [lower upper dleb] in *.
    qbool. apply andb_true_iff. split; qbool; rewrite Qred_correct; unfold Qdiv;
      change (/ 2)%Q with (1 # 2)%Q; lra.
Qed.

Lemma tolerance_bound_contains_target (e : double) :
  (d0 <=? e)%D = true \/ (e =? dm1)%D = true -> within (tolerance_bound e) d0 = true.
Proof.
  intros [H | H]; [|rewrite (tolerance_bound_unconstrained _ H); reflexivity].
  destruct e as [q| | |]; try discriminate H; [|reflexivity].
  destruct (Qeq_bool q (-1)) eqn:E.
  - apply Qeq_bool_minus1_neg in E. unfold d0 in H. cbn [dleb] in H. qbool. lra.
  - rewrite (tolerance_bound_finite _ E). unfold within, d0 in *. cbn [lower upper dleb] in *.
    qbool. apply andb_true_iff. split; qbool; lra.
Qed.





Lemma tolerance_bound_negative (e : double) :
  (e <? d0)%D = true -> (e =? dm1)%D = false ->
  (upper (tolerance_bound e) <? lower (tolerance_bound e))%D = true.
Proof.
  intros Hneg Hs. destruct e as [q| | |]; try discriminate Hneg; try reflexivity.
  unfold dm1 in Hs. cbn [deqb] in Hs. rewrite (tolerance_bound_finite _ Hs).
  cbn [lower upper]. dsimpl. qbool. lra.
Qed.

Lemma unbounded_never_penalised (v : double) :
  penalty (mkBounds NInf PInf) v = d0 /\ derivative (mkBounds NInf PInf) v = d0.
Proof. destruct v; split; reflexivity. Qed.

(** Splits a [Forall2] over two lists of three into its three pairs. *)
Ltac forall2_3 :=
  apply Forall2_cons; [|apply Forall2_cons; [|apply Forall2_cons; [|apply Forall2_nil]]].



(** An axis with extent -1 is never penalised: penalty and derivative
    are 0 at every value, infinite ones included.  An axis with a
    non-negative extent is not penalised at the target itself. *)
Theorem extent_minus_one_unconstrained
    (pos_con : PositionConstraint.t) (prim : SolidPrimitive.t)
    (prims : list SolidPrimitive.t) (a b c : double) (rest : list double) :
  BoundingVolume.primitives (PositionConstraint.constraint_region pos_con) = prim :: prims ->
  SolidPrimitive.dimensions prim = a :: b :: c :: rest ->
  exists bs,
    positionConstraintMsgToBoundVector pos_con = Ok bs /\
    Forall2 (fun e bd =>
               ((e =? dm1)%D = true ->
                forall v, penalty bd v = d0 /\ derivative bd v = d0) /\
               ((d0 <=? e)%D = true -> penalty bd d0 = d0))
            [a; b; c] bs.
Proof.
  intros Hprims Hdims.
  eexists. split; [apply (positionConstraintMsgToBoundVector_eq _ Hprims Hdims)|].
  forall2_3;
    (split; [intros H v; rewrite (box_bound_unconstrained _ H);
             apply unbounded_never_penalised
            |intro H; apply penalty_within, box_bound_contains_target; left; exact H]).
Qed.

(** [positionConstraintMsgToBoundVector] throws when the region has no
    primitive, reads out of bounds when the first primitive has fewer than
    three dimensions, and returns exactly three bounds otherwise. *)
Theorem positionConstraintMsgToBoundVector_outcome (pos_con : PositionConstraint.t) :
  match BoundingVolume.primitives (PositionConstraint.constraint_region pos_con) with
  | [] => positionConstraintMsgToBoundVector pos_con = Fail OutOfRange
  | prim :: _ =>
      if (3 <=? length (SolidPrimitive.dimensions prim))%nat
      then exists b0 b1 b2, positionConstraintMsgToBoundVector pos_con = Ok [b0; b1; b2]
      else positionConstraintMsgToBoundVector pos_con = Fail IndexOutOfBounds
  end.
Proof.
  unfold positionConstraintMsgToBoundVector.
  destruct (BoundingVolume.primitives (PositionConstraint.constraint_region pos_con))
    as [|[dims] prims]; [reflexivity|].
  cbn [at_ nth_error obind SolidPrimitive.dimensions].
  destruct dims as [|a [|b [|c rest]]]; cbn; eauto.
Qed.

(** ** The classification, exactly *)

Lemma skipn_cons_inv {A : Type} (l : list A) (i : nat) (d : A) (ds : list A) :
  skipn i l = d :: ds -> nth_error l i = Some d /\ skipn (S i) l = ds.
Proof.
  intro H. split.
  - rewrite <- (Nat.add_0_r i), <- nth_error_skipn, H. reflexivity.
  - change (S i) with (1 + i)%nat. rewrite <- skipn_skipn, H. reflexivity.
Qed.

Lemma classify_range_exact (c : BaseConstraint) (dims : list double) (ds : list double) :
  forall (i : nat) (mask mask' : list bool) (lg : list log_entry),
  skipn i dims = ds ->
  lfor_range i (length ds) (classify_dimension c dims) mask = (Ok mask', lg) ->
  lg = map (fun _ => below_tolerance_entry) (filter (thin c) ds) /\
  forall j, nth_error mask' j
            = if (i <=? j)%nat && classified (equality_constraint_threshold_ c) dims j
              then Some true else nth_error mask j.
Proof.
  induction ds as [|d ds IH]; intros i mask mask' lg Hskip H.
  - inversion H; subst. split; [reflexivity|]. intro j.
    unfold classified.
    destruct (nth_error dims j) as [x|] eqn:E; [|rewrite andb_false_r; reflexivity].
    assert (j < length dims)%nat by (apply nth_error_Some; congruence).
    assert (length dims <= i)%nat.
    { destruct (Nat.le_gt_cases (length dims) i) as [Hle|Hgt]; [exact Hle|].
      pose proof (length_skipn i dims) as L. rewrite Hskip in L. cbn in L. lia. }
    destruct (i <=? j)%nat eqn:Eij; [apply Nat.leb_le in Eij; lia|reflexivity].
  - apply skipn_cons_inv in Hskip. destruct Hskip as [Hd Hskip].
    cbn [length lfor_range] in H.
    apply lbind_Ok in H. destruct H as (m1 & l1 & l2 & Hrun & H & Elg).
    apply classify_dimension_Ok in Hrun. destruct Hrun as (d' & Hd' & Hstep).
    rewrite Hd in Hd'. inversion Hd'; subst d'.
    destruct (IH _ _ _ _ Hskip H) as [Hlg Hmask]. clear IH.
    cbn [filter]. unfold thin at 1.
    destruct (d <? equality_constraint_threshold_ c)%D eqn:Hthr.
    + destruct Hstep as (Hi & -> & ->). subst lg. split.
      * cbn [andb]. destruct (d <? getTolerance c)%D; cbn [map app]; rewrite Hlg; reflexivity.
      * intro j. rewrite Hmask. destruct (Nat.eq_dec i j) as [<-|Hne].
        -- assert (E : (S i <=? i)%nat = false) by (apply Nat.leb_gt; lia).
           rewrite E, Nat.leb_refl. cbn [andb]. unfold classified. rewrite Hd, Hthr.
           apply nth_error_replace_nth_eq, Hi.
        -- rewrite nth_error_replace_nth_neq by exact Hne.
           assert (E : (S i <=? j)%nat = (i <=? j)%nat).
           { destruct (i <=? j)%nat eqn:E1; [apply Nat.leb_le in E1; apply Nat.leb_le; lia|].
             apply Nat.leb_gt in E1. apply Nat.leb_gt. lia. }
           rewrite E. reflexivity.
    + destruct Hstep as (-> & ->). subst lg. split; [cbn [andb app]; exact Hlg|].
      intro j. rewrite Hmask. destruct (Nat.eq_dec i j) as [<-|Hne].
      * assert (E : (S i <=? i)%nat = false) by (apply Nat.leb_gt; lia).
        rewrite E, Nat.leb_refl. cbn [andb]. unfold classified. rewrite Hd, Hthr. reflexivity.
      * assert (E : (S i <=? j)%nat = (i <=? j)%nat).
        { destruct (i <=? j)%nat eqn:E1; [apply Nat.leb_le in E1; apply Nat.leb_le; lia|].
          apply Nat.leb_gt in E1. apply Nat.leb_gt. lia. }
        rewrite E. reflexivity.
Qed.

Lemma classify_dimensions_exact (c : BaseConstraint) (dims : list double)
    (mask : list bool) (lg : list log_entry) :
  classify_dimensions c dims = (Ok mask, lg) ->
  mask = [ classified (equality_constraint_threshold_ c) dims 0;
           classified (equality_constraint_threshold_ c) dims 1;
           classified (equality_constraint_threshold_ c) dims 2 ] /\
  lg = map (fun _ => below_tolerance_entry) (filter (thin c) dims).
Proof.
  intro H. pose proof H as Hs. apply classify_dimensions_spec in Hs.
  destruct Hs as ((m0 & m1 & m2 & ->) & _).
  unfold classify_dimensions, lfor_loop in H.
  apply (@classify_range_exact c dims dims 0) in H; [|reflexivity].
  destruct H as [Hlg Hm]. split; [|exact Hlg].
  pose proof (Hm 0%nat) as H0. pose proof (Hm 1%nat) as H1. pose proof (Hm 2%nat) as H2.
  cbn [nth_error Nat.leb andb] in H0, H1, H2.
  destruct (classified _ dims 0), (classified _ dims 1), (classified _ dims 2); congruence.
Qed.

Ltac log_facts :=
  repeat match goal with
  | H : log _ _ = (Ok _, _) |- _ => inversion H; subst; clear H
  end.

Lemma EqualityPositionConstraint_parse_errors (c c' : BaseConstraint)
    (msg : Constraints.t) (lg : list log_entry) :
  EqualityPositionConstraint_parseConstraintMsg c msg = (Ok c', lg) ->
  exists dims mask lgm,
    primitive_dimensions_0 msg = Ok dims /\
    classify_dimensions (set_bounds c []) dims = (Ok mask, lgm) /\
    is_dim_constrained_ c' = mask /\
    filter is_error lg = filter is_error lgm.
Proof.
  unfold EqualityPositionConstraint_parseConstraintMsg. intro H.
  do 13 linv H. unfold lret in H. inversion H. subst. log_facts.
  do 3 eexists. split; [eassumption|]. split; [eassumption|]. split; [reflexivity|].
  repeat rewrite filter_app. cbn [filter is_error log_level app].
  repeat rewrite app_nil_r. reflexivity.
Qed.

Lemma LinearSystemPositionConstraint_parse_errors (c c' : BaseConstraint)
    (msg : Constraints.t) (lg : list log_entry) :
  LinearSystemPositionConstraint_parseConstraintMsg c msg = (Ok c', lg) ->
  exists dims mask lgm,
    primitive_dimensions_0 msg = Ok dims /\
    classify_dimensions (set_bounds c []) dims = (Ok mask, lgm) /\
    is_dim_constrained_ c' = mask /\
    filter is_error lg = filter is_error lgm.
Proof.
  unfold LinearSystemPositionConstraint_parseConstraintMsg. intro H.
  do 14 linv H. unfold lret in H. inversion H. subst. log_facts.
  do 3 eexists. split; [eassumption|]. split; [eassumption|]. split; [reflexivity|].
  repeat rewrite filter_app. cbn [filter is_error log_level app].
  repeat rewrite app_nil_r. reflexivity.
Qed.

Lemma filter_is_error_entries (l : list double) (f : double -> bool) :
  filter is_error (map (fun _ => below_tolerance_entry) (filter f l))
  = map (fun _ => below_tolerance_entry) (filter f l).
Proof.
  induction (filter f l) as [|x xs IH]; [reflexivity|].
  cbn [map filter]. change (is_error below_tolerance_entry) with true. rewrite IH.
  reflexivity.
Qed.

(** After [init] of an equality or linear system constraint, the mask
    is the under-threshold test of the first three dimensions (a dimension
    the primitive does not have counts as free), and the error-level entries
    of the log are one per dimension under both threshold and tolerance. *)
Theorem equality_classification_exact
    (cls : constraint_class) (group : string) (num_dofs : nat) (msg : Constraints.t)
    (c : BaseConstraint) (lg : list log_entry) (dims : list double) :
  cls = EqualityPositionConstraint \/ cls = LinearSystemPositionConstraint ->
  init (construct cls group num_dofs) msg = (Ok c, lg) ->
  primitive_dimensions_0 msg = Ok dims ->
  is_dim_constrained_ c
  = [ classified (Fin (1 # 1000)) dims 0;
      classified (Fin (1 # 1000)) dims 1;
      classified (Fin (1 # 1000)) dims 2 ] /\
  filter is_error lg
  = map (fun _ => below_tolerance_entry)
        (filter (fun d => (d <? Fin (1 # 1000))%D && (d <? CONSTRAINT_PROJECTION_TOLERANCE)%D)
                dims).
Proof.
  intros Hcls Hinit Hdims. unfold init, parseConstraintMsg in Hinit.
  destruct Hcls as [-> | ->]; cbn [class_of construct] in Hinit;
    [apply EqualityPositionConstraint_parse_errors in Hinit
    |apply LinearSystemPositionConstraint_parse_errors in Hinit];
    destruct Hinit as (dims' & mask & lgm & Hd & Hm & Hmask & Hlog);
    same_reads; apply classify_dimensions_exact in Hm; destruct Hm as [-> ->];
    (split; [exact Hmask|]); rewrite Hlog; apply filter_is_error_entries.
Qed.

(** ** The object the factory returns *)

Lemma createOMPLConstraint_position_only_inv (rm : RobotModel) (group : string)
    (msg : Constraints.t) (pc : PositionConstraint.t) (pcs : list PositionConstraint.t)
    (c : BaseConstraint) (lg : list log_entry) :
  Constraints.position_constraints msg = pc :: pcs ->
  Constraints.orientation_constraints msg = [] ->
  createOMPLConstraint rm group msg = (Ok (Some c), lg) ->
  exists lgi,
    init (construct (selected_class (Constraints.name msg)) group (getVariableCount rm group))
         msg = (Ok c, lgi).
Proof.
  intros Hp Ho Hc.
  destruct (init (construct (selected_class (Constraints.name msg)) group
                    (getVariableCount rm group)) msg) as [r lgi] eqn:Hinit.
  destruct (createOMPLConstraint_position_only rm group _ Hp Ho Hinit) as (lg' & Hc' & _).
  rewrite Hc in Hc'. destruct r as [c'|f]; cbn [returned] in Hc'; inversion Hc'.
  exists lgi. reflexivity.
Qed.

Lemma primitive_pose_nth (msg : Constraints.t) (pc : PositionConstraint.t)
    (pcs : list PositionConstraint.t) (i : nat) (pose : Pose.t) :
  Constraints.position_constraints msg = pc :: pcs ->
  primitive_pose msg i = Ok pose ->
  nth_error (BoundingVolume.primitive_poses (PositionConstraint.constraint_region pc)) i
  = Some pose.
Proof.
  intros Hp. unfold primitive_pose, position_constraint_0. rewrite Hp.
  cbn [at_ nth_error obind]. unfold at_.
  destruct (nth_error _ i); intro H; inversion H. reflexivity.
Qed.

Lemma position_constraint_0_first (msg : Constraints.t) (pc pc' : PositionConstraint.t)
    (pcs : list PositionConstraint.t) :
  Constraints.position_constraints msg = pc :: pcs ->
  position_constraint_0 msg = Ok pc' -> pc' = pc.
Proof.
  intros Hp. unfold position_constraint_0. rewrite Hp. cbn. congruence.
Qed.

(** The object the factory returns for position entries carries the
    group, the variable count, three constraint functions and the default
    tolerance; its link name and target orientation are those of the first
    entry and its first pose.  The target position is that of the first pose
    for the bounded and equality classes; the linear system class never sets
    it and holds the first two poses as start and end instead. *)
Theorem created_object_fields (rm : RobotModel) (group : string) (msg : Constraints.t)
    (pc : PositionConstraint.t) (pcs : list PositionConstraint.t)
    (c : BaseConstraint) (lg : list log_entry) :
  Constraints.position_constraints msg = pc :: pcs ->
  Constraints.orientation_constraints msg = [] ->
  createOMPLConstraint rm group msg = (Ok (Some c), lg) ->
  exists pose0,
    nth_error (BoundingVolume.primitive_poses (PositionConstraint.constraint_region pc)) 0
      = Some pose0 /\
    class_of c = selected_class (Constraints.name msg) /\
    group_ c = group /\
    n_ c = getVariableCount rm group /\
    getCoDimension c = 3%nat /\
    getTolerance c = CONSTRAINT_PROJECTION_TOLERANCE /\
    getLinkName c = PositionConstraint.link_name pc /\
    getTargetOrientation c = Ok (quaternionMsgToEigen (Pose.orientation pose0)) /\
    (class_of c <> LinearSystemPositionConstraint ->
     getTargetPosition c = Ok (pointToEigen (Pose.position pose0))) /\
    (class_of c = LinearSystemPositionConstraint ->
     getTargetPosition c = Fail Uninitialized /\
     start_position_ c = Some (pointToEigen (Pose.position pose0)) /\
     exists pose1,
       nth_error (BoundingVolume.primitive_poses (PositionConstraint.constraint_region pc)) 1
         = Some pose1 /\
       end_position_ c = Some (pointToEigen (Pose.position pose1))).
Proof.
  intros Hp Ho Hc.
  destruct (createOMPLConstraint_position_only_inv rm group _ Hp Ho Hc) as (lgi & Hinit).
  unfold init, parseConstraintMsg in Hinit. cbn [class_of construct] in Hinit.
  destruct (selected_class (Constraints.name msg)) eqn:Hcls.
  - apply PositionConstraint_parse_inv in Hinit.
    destruct Hinit as (pc' & b0 & b1 & b2 & pose & Hpc & _ & Hpose & ->).
    apply (position_constraint_0_first _ Hp) in Hpc. subst pc'.
    exists pose. split; [apply (primitive_pose_nth _ _ Hp Hpose)|].
    repeat (split; [reflexivity|]). intro H. discriminate H.
  - apply EqualityPositionConstraint_parse_inv in Hinit.
    destruct Hinit as (dims & m0 & m1 & m2 & lgm & pose & pc' & _ & _ & _ & Hpose & Hpc & ->).
    apply (position_constraint_0_first _ Hp) in Hpc. subst pc'.
    exists pose. split; [apply (primitive_pose_nth _ _ Hp Hpose)|].
    repeat (split; [reflexivity|]). intro H. discriminate H.
  - apply LinearSystemPositionConstraint_parse_inv in Hinit.
    destruct Hinit
      as (dims & m0 & m1 & m2 & lgm & pose0 & pose1 & pc' & _ & _ & _ & Hpose0 & Hpose1 & Hpc & ->).
    apply (position_constraint_0_first _ Hp) in Hpc. subst pc'.
    exists pose0. split; [apply (primitive_pose_nth _ _ Hp Hpose0)|].
    repeat (split; [reflexivity|]). split; [intro H; exfalso; apply H; reflexivity|].
    intros _. split; [reflexivity|]. split; [reflexivity|].
    exists pose1. split; [apply (primitive_pose_nth _ _ Hp Hpose1)|reflexivity].
  - unfold selected_class in Hcls.
    destruct (String.eqb _ _); [discriminate|]. destruct (String.eqb _ _); discriminate.
Qed.

(** Entries after the first change nothing of what the factory returns;
    they only add a warning to the log. *)
Theorem extra_entries_ignored (rm : RobotModel) (group : string) (name : string)
    (pc : PositionConstraint.t) (pcs : list PositionConstraint.t)
    (oc : OrientationConstraint.t) (ocs : list OrientationConstraint.t) :
  fst (createOMPLConstraint rm group (Constraints.mk name (pc :: pcs) []))
    = fst (createOMPLConstraint rm group (Constraints.mk name [pc] [])) /\
  fst (createOMPLConstraint rm group (Constraints.mk name [] (oc :: ocs)))
    = fst (createOMPLConstraint rm group (Constraints.mk name [] [oc])) /\
  (pcs <> [] ->
   In (mkLog WARN "Only a single position constraints supported. Using the first one.")
      (snd (createOMPLConstraint rm group (Constraints.mk name (pc :: pcs) [])))) /\
  (ocs <> [] ->
   In (mkLog WARN "Only a single orientation constraints supported. Using the first one.")
      (snd (createOMPLConstraint rm group (Constraints.mk name [] (oc :: ocs))))).
Proof.
  split; [|split; [|split]].
  - destruct (init (construct (selected_class name) group (getVariableCount rm group))
                (Constraints.mk name [pc] [])) as [r lgi] eqn:Hinit.
    assert (Hinit' : init (construct (selected_class name) group (getVariableCount rm group))
                       (Constraints.mk name (pc :: pcs) []) = (r, lgi)).
    { rewrite <- Hinit. unfold init, parseConstraintMsg. cbn [class_of construct].
      destruct (selected_class name); reflexivity. }
    destruct (@createOMPLConstraint_position_only rm group (Constraints.mk name [pc] [])
                pc [] r lgi eq_refl eq_refl Hinit) as (lg1 & H1 & _).
    destruct (@createOMPLConstraint_position_only rm group (Constraints.mk name (pc :: pcs) [])
                pc pcs r lgi eq_refl eq_refl Hinit') as (lg2 & H2 & _).
    rewrite H1, H2. reflexivity.
  - destruct ocs; reflexivity.
  - intro Hne. destruct pcs as [|pc' pcs]; [congruence|].
    unfold createOMPLConstraint. cbn [Constraints.position_constraints
      Constraints.orientation_constraints length Nat.ltb Nat.leb log_when andb].
    cbn [log lbind]. destruct (lbind _ _). cbn [snd]. left. reflexivity.
  - intro Hne. destruct ocs as [|oc' ocs]; [congruence|].
    cbn. left. reflexivity.
Qed.

(** The factory returns the null object exactly when both lists have
    entries or both are empty, and then always with an error-level entry in
    the log. *)
Theorem null_result_logs_error (rm : RobotModel) (group : string) (msg : Constraints.t) :
  fst (createOMPLConstraint rm group msg) = Ok None <->
  (Constraints.position_constraints msg <> [] /\
   Constraints.orientation_constraints msg <> [] /\
   existsb is_error (snd (createOMPLConstraint rm group msg)) = true) \/
  (Constraints.position_constraints msg = [] /\
   Constraints.orientation_constraints msg = [] /\
   existsb is_error (snd (createOMPLConstraint rm group msg)) = true).
Proof.
  destruct (Constraints.position_constraints msg) as [|pc pcs] eqn:Hp;
    destruct (Constraints.orientation_constraints msg) as [|oc ocs] eqn:Ho.
  - unfold createOMPLConstraint. rewrite Hp, Ho. cbn. split; [intros _; right|]; auto.
  - destruct (createOMPLConstraint_orientation_only rm group _ Hp Ho)
      as (c & lg & lgi & Hc & _). rewrite Hc. cbn [fst]. split.
    + intro H. discriminate H.
    + intros [(H & _) | (_ & H & _)]; [exfalso; apply H; reflexivity|discriminate H].
  - destruct (init (construct (selected_class (Constraints.name msg)) group
                      (getVariableCount rm group)) msg) as [r lgi] eqn:Hinit.
    destruct (createOMPLConstraint_position_only rm group _ Hp Ho Hinit) as (lg & Hc & _).
    rewrite Hc. cbn [fst]. split.
    + destruct r; intro H; discriminate H.
    + intros [(_ & H & _) | (H & _)]; [exfalso; apply H; reflexivity|discriminate H].
  - unfold createOMPLConstraint. rewrite Hp, Ho.
    cbn [length Nat.ltb Nat.leb andb].
    split; [intros _; left|reflexivity || (intros _; destruct pcs, ocs; reflexivity)].
    split; [discriminate|]. split; [discriminate|].
    destruct pcs, ocs; reflexivity.
Qed.

(** ** At the target *)

Lemma fin_zero (a : Q) : (a == 0)%Q -> Fin (Qred a) = Fin 0.
Proof. intro H. f_equal. change 0%Q with (Qred 0). apply Qred_complete, H. Qed.

Lemma toRotationMatrix_finite (w x y z : Q) :
  exists r00 r01 r02 r10 r11 r12 r20 r21 r22,
    toRotationMatrix (mkQuat (Fin w) (Fin x) (Fin y) (Fin z))
    = mkM3 (fin3 r00 r01 r02) (fin3 r10 r11 r12) (fin3 r20 r21 r22).
Proof. do 9 eexists. reflexivity. Qed.

Lemma v3_dot_fin_zero (a b c : Q) :
  v3_dot (mkV3 (Fin a) (Fin b) (Fin c)) (mkV3 (Fin 0) (Fin 0) (Fin 0)) = d0.
Proof.
  unfold v3_dot, d0. cbn [vx vy vz dmul dadd].
  apply fin_zero. repeat rewrite Qred_correct. ring.
Qed.

Lemma v3_sub_fin_same (tx ty tz px py pz : Q) :
  (tx == px)%Q -> (ty == py)%Q -> (tz == pz)%Q ->
  v3_sub (fin3 tx ty tz) (fin3 px py pz) = fin3 0 0 0.
Proof.
  intros Hx Hy Hz. unfold v3_sub, v3_map2, fin3, dsub. cbn [vx vy vz dneg dadd].
  f_equal; apply fin_zero; lra.
Qed.

(** A bounded position constraint whose three bounds contain 0, with a
    finite target pose, evaluates to the zero vector at joint values that
    put the link at the target position. *)
Theorem position_function_zero_at_target
    (rm : RobotModel) (nm : Numerics) (c : BaseConstraint) (q out : VectorXd)
    (b0 b1 b2 : Bounds) (w x y z px py pz tx ty tz : Q) :
  class_of c = PositionConstraint ->
  bounds_ c = [b0; b1; b2] ->
  within b0 d0 = true -> within b1 d0 = true -> within b2 d0 = true ->
  target_orientation_ c = Some (mkQuat (Fin w) (Fin x) (Fin y) (Fin z)) ->
  target_position_ c = Some (fin3 px py pz) ->
  translation (forwardKinematics rm c q) = fin3 tx ty tz ->
  (tx == px)%Q -> (ty == py)%Q -> (tz == pz)%Q ->
  length out = 3%nat ->
  function rm nm c q out = Ok [d0; d0; d0].
Proof.
  intros Hcls Hb W0 W1 W2 Ho Hp Ht Hx Hy Hz Hout.
  apply list_length_3 in Hout. destruct Hout as (o0 & o1 & o2 & ->).
  unfold function, BaseConstraint_function, calcError, PositionConstraint_calcError.
  rewrite Hcls, Ho, Hp, Ht, Hb. cbn [member obind].
  rewrite (@v3_sub_fin_same tx ty tz px py pz Hx Hy Hz).
  destruct (toRotationMatrix_finite w x y z)
    as (r00 & r01 & r02 & r10 & r11 & r12 & r20 & r21 & r22 & ->).
  unfold m3_transpose, m3_mul_v3, fin3. cbn [row0 row1 row2 vx vy vz].
  rewrite !v3_dot_fin_zero.
  unfold for_loop. cbn [for_range length obind index nth_error v3_coeffs vx vy vz
                        index_put Nat.ltb Nat.leb replace_nth].
  rewrite (@penalty_within b0 d0 W0), (@penalty_within b1 d0 W1), (@penalty_within b2 d0 W2).
  reflexivity.
Qed.


(** ** The line of the linear system constraint *)



(** ** The angle-axis operator where the cosine is 1 *)

Lemma dmul_nonfinite_r (x c : double) : is_finite c = false -> is_finite (x * c)%D = false.
Proof.
  destruct c; intro H; try discriminate H; destruct x; try reflexivity;
    cbn [dmul dsign signed_inf]; destruct (q ?= 0)%Q; reflexivity.
Qed.

Lemma dadd_nonfinite_r (x y : double) : is_finite y = false -> is_finite (x + y)%D = false.
Proof. destruct y; intro H; try discriminate H; destruct x; reflexivity. Qed.

Lemma dneg_nonfinite (y : double) : is_finite y = false -> is_finite (- y)%D = false.
Proof. destruct y; intro H; try discriminate H; reflexivity. Qed.

Lemma ddiv_by_zero_nonfinite (x y : double) :
  (y =? d0)%D = true -> is_finite (x / y)%D = false.
Proof.
  destruct y as [b| | |]; intro H; try discriminate H.
  unfold d0 in H. cbn [deqb] in H.
  destruct x as [a| | |]; cbn [ddiv dsign]; try reflexivity.
  - rewrite H. cbn [signed_inf]. destruct (a ?= 0)%Q; reflexivity.
  - unfold divisor_sign. cbn [dsign]. destruct (b ?= 0)%Q; reflexivity.
  - unfold divisor_sign. cbn [dsign]. destruct (b ?= 0)%Q; reflexivity.
Qed.

Lemma one_minus_one (c : double) : (c =? d1)%D = true -> (d1 - c =? d0)%D = true.
Proof.
  destruct c as [q| | |]; intro H; try discriminate H.
  unfold d1, d0, dsub in *. cbn [deqb dneg dadd] in *.
  apply Qeq_bool_iff in H. apply Qeq_bool_iff. rewrite Qred_correct. lra.
Qed.

Lemma m3_add_scaled_nonfinite (A B : Matrix3d) (C : double) :
  is_finite C = false ->
  forallb (fun x => negb (is_finite x)) (m3_coeffs (m3_add A (m3_scale_r B C))) = true.
Proof.
  intro HC. destruct A as [[a00 a01 a02] [a10 a11 a12] [a20 a21 a22]].
  destruct B as [[b00 b01 b02] [b10 b11 b12] [b20 b21 b22]].
  unfold m3_coeffs, v3_coeffs, m3_add, m3_map2, v3_map2, m3_scale_r, m3_map, v3_map.
  cbn [vx vy vz row0 row1 row2 app forallb].
  assert (H : forall a b, negb (is_finite (a + b * C)%D) = true).
  { intros a b. rewrite dadd_nonfinite_r; [reflexivity|]. apply dmul_nonfinite_r, HC. }
  rewrite !H. reflexivity.
Qed.

(** Whenever the cosine of the angle comes out as 1, no entry of the
    operator computed by [angularVelocityToAngleAxis] is finite, whatever
    the angle and the axis: the factor [C] is a quotient by zero. *)
Theorem operator_not_finite_when_cosine_is_one (nm : Numerics) (angle : double)
    (axis : Vector3d) :
  (std_cos nm (dabs angle) =? d1)%D = true ->
  forallb (fun x => negb (is_finite x)) (m3_coeffs (angularVelocityToAngleAxis nm angle axis))
  = true.
Proof.
  intro Hcos. unfold angularVelocityToAngleAxis. cbv zeta.
  apply m3_add_scaled_nonfinite.
  unfold dsub. apply dadd_nonfinite_r, dneg_nonfinite, ddiv_by_zero_nonfinite.
  apply one_minus_one, Hcos.
Qed.

(** ** Initializing again *)


(** ** What an initialized object holds, by class *)

Lemma init_fields (cls : constraint_class) (group : string) (num_dofs : nat)
    (msg : Constraints.t) (c : BaseConstraint) (lg : list log_entry) :
  init (construct cls group num_dofs) msg = (Ok c, lg) ->
  class_of c = cls /\
  (exists o, target_orientation_ c = Some o) /\
  (cls = PositionConstraint \/ cls = EqualityPositionConstraint ->
   exists p, target_position_ c = Some p) /\
  (cls = LinearSystemPositionConstraint ->
   exists s e, start_position_ c = Some s /\ end_position_ c = Some e) /\
  (cls = PositionConstraint \/ cls = OrientationConstraint ->
   exists b0 b1 b2, bounds_ c = [b0; b1; b2]).
Proof.
  unfold init, parseConstraintMsg. destruct cls; cbn [class_of construct]; intro H.
  - apply PositionConstraint_parse_inv in H.
    destruct H as (pc & b0 & b1 & b2 & pose & _ & _ & _ & ->).
    split; [reflexivity|]. split; [eexists; reflexivity|].
    split; [intros _; eexists; reflexivity|].
    split; [intro H; discriminate H|]. intros _. do 3 eexists. reflexivity.
  - apply EqualityPositionConstraint_parse_inv in H.
    destruct H as (dims & m0 & m1' & m2' & lgm & pose & pc & _ & _ & _ & _ & _ & ->).
    split; [reflexivity|]. split; [eexists; reflexivity|].
    split; [intros _; eexists; reflexivity|].
    split; [intro H; discriminate H|]. intros [H|H]; discriminate H.
  - apply LinearSystemPositionConstraint_parse_inv in H.
    destruct H as (dims & m0 & m1' & m2' & lgm & pose0 & pose1 & pc & _ & _ & _ & _ & _ & _ & ->).
    split; [reflexivity|]. split; [eexists; reflexivity|].
    split; [intros [H|H]; discriminate H|].
    split; [intros _; do 2 eexists; split; reflexivity|]. intros [H|H]; discriminate H.
  - apply OrientationConstraint_parse_inv in H.
    destruct H as (oc & b0 & b1 & b2 & _ & _ & ->).
    split; [reflexivity|]. split; [eexists; reflexivity|].
    split; [intros [H|H]; discriminate H|].
    split; [intro H; discriminate H|]. intros _. do 3 eexists. reflexivity.
Qed.

Lemma topRows_short (m : MatrixXd) :
  (rows m < 3)%nat -> topRows m 3 = Fail IndexOutOfBounds.
Proof.
  intro H. unfold topRows. destruct (3 <=? rows m)%nat eqn:E; [|reflexivity].
  apply Nat.leb_le in E. lia.
Qed.

Lemma bottomRows_short (m : MatrixXd) :
  (rows m < 3)%nat -> bottomRows m 3 = Fail IndexOutOfBounds.
Proof.
  intro H. unfold bottomRows. destruct (3 <=? rows m)%nat eqn:E; [|reflexivity].
  apply Nat.leb_le in E. lia.
Qed.

(** When the robot Jacobian comes back with fewer than three rows (the
    query failed), [jacobian] of an initialized constraint of any
    class fails on the block access instead of returning a matrix. *)
Theorem jacobian_fails_on_short_robot_jacobian
    (rm : RobotModel) (nm : Numerics) (cls : constraint_class) (group : string)
    (num_dofs : nat) (msg : Constraints.t) (c : BaseConstraint) (lg : list log_entry)
    (q : VectorXd) (out : MatrixXd) :
  init (construct cls group num_dofs) msg = (Ok c, lg) ->
  (rows (robotGeometricJacobian rm c q) < 3)%nat ->
  jacobian rm nm c q out = Fail IndexOutOfBounds.
Proof.
  intros Hinit Hshort. apply init_fields in Hinit.
  destruct Hinit as (Hcls & (o & Ho) & Hpos & Hline & Hb).
  unfold jacobian. rewrite Hcls. destruct cls.
  - destruct (Hpos (or_introl eq_refl)) as (p & Hp).
    unfold BaseConstraint_jacobian, calcError, calcErrorJacobian,
      PositionConstraint_calcError, PositionConstraint_calcErrorJacobian.
    rewrite Hcls, Ho, Hp. cbn [member obind]. rewrite (topRows_short _ Hshort). reflexivity.
  - unfold EqualityPositionConstraint_jacobian. rewrite Ho. cbn [member obind].
    rewrite (topRows_short _ Hshort). reflexivity.
  - unfold LinearSystemPositionConstraint_jacobian. rewrite Ho. cbn [member obind].
    rewrite (topRows_short _ Hshort). reflexivity.
  - unfold BaseConstraint_jacobian, calcError, calcErrorJacobian,
      OrientationConstraint_calcError, OrientationConstraint_calcErrorJacobian,
      orientation_difference.
    rewrite Hcls, Ho. cbn [member obind]. rewrite (bottomRows_short _ Hshort). reflexivity.
Qed.

(** ** An equality constraint with no thin dimension *)

Lemma classified_none_under (thr : double) (dims : list double) (i : nat) :
  forallb (fun d => negb (d <? thr)%D) dims = true -> classified thr dims i = false.
Proof.
  intro H. unfold classified. destruct (nth_error dims i) as [d|] eqn:E; [|reflexivity].
  apply nth_error_In in E. rewrite forallb_forall in H. apply H in E.
  apply negb_true_iff in E. exact E.
Qed.

(** When no dimension of the box is under the equality threshold, the
    equality constraint constrains nothing: [function] is the zero vector
    and [jacobian] the zero matrix at every joint value. *)
Theorem equality_without_thin_dimension_is_vacuous
    (rm : RobotModel) (nm : Numerics) (group : string) (num_dofs : nat)
    (msg : Constraints.t) (c : BaseConstraint) (lg : list log_entry)
    (dims : list double) (q : VectorXd) :
  init (construct EqualityPositionConstraint group num_dofs) msg = (Ok c, lg) ->
  primitive_dimensions_0 msg = Ok dims ->
  forallb (fun d => negb (d <? Fin (1 # 1000))%D) dims = true ->
  (forall out, length out = 3%nat -> function rm nm c q out = Ok [d0; d0; d0]) /\
  (forall out, (3 <= rows (robotGeometricJacobian rm c q))%nat ->
     jacobian rm nm c q out = Ok (setZero out)).
Proof.
  intros Hinit Hdims Hnone.
  pose proof (init_fields _ _ _ _ Hinit) as (Hcls & (o & Ho) & Hpos & _).
  destruct (Hpos (or_intror eq_refl)) as (p & Hp).
  unfold init, parseConstraintMsg in Hinit. cbn [class_of construct] in Hinit.
  apply EqualityPositionConstraint_parse_errors in Hinit.
  destruct Hinit as (dims' & mask & lgm & Hd & Hm & Hmask & _).
  same_reads. apply classify_dimensions_exact in Hm. destruct Hm as [-> _].
  cbn [equality_constraint_threshold_ set_bounds construct] in Hmask.
  rewrite !(classified_none_under _ _ _ Hnone) in Hmask.
  split.
  - intros out Hout. apply list_length_3 in Hout. destruct Hout as (o0 & o1 & o2 & ->).
    unfold function, EqualityPositionConstraint_function.
    rewrite Hcls, Ho, Hp, Hmask. reflexivity.
  - intros out Hrows. unfold jacobian, EqualityPositionConstraint_jacobian.
    rewrite Hcls, Ho, Hmask. cbn [member obind].
    unfold topRows. destruct (3 <=? rows (robotGeometricJacobian rm c q))%nat eqn:E;
      [|apply Nat.leb_gt in E; lia].
    cbn [obind]. unfold mat_mul.
    assert (Hlen : rows (firstn 3 (robotGeometricJacobian rm c q)) = 3%nat)
      by (apply firstn_length_le, Hrows).
    cbn [m3_rows cols v3_coeffs length]. rewrite Hlen. cbn [Nat.eqb obind].
    reflexivity.
Qed.

(** ** Instances of the properties above *)




Lemma extent_minus_one_unconstrained_witness :
  exists bs,
    positionConstraintMsgToBoundVector (box_constraint [d2; d1; dm1] [pose_at d1 d2 d0])
      = Ok bs /\
    Forall2 (fun e bd =>
               ((e =? dm1)%D = true ->
                forall v, penalty bd v = d0 /\ derivative bd v = d0) /\
               ((d0 <=? e)%D = true -> penalty bd d0 = d0))
            [d2; d1; dm1] bs.
Proof.
  exact (@extent_minus_one_unconstrained
           (box_constraint [d2; d1; dm1] [pose_at d1 d2 d0]) _ _ _ _ _ _
           eq_refl eq_refl).
Defined.

Lemma equality_classification_exact_witness :
  exists c lg,
    init (construct EqualityPositionConstraint "arm" 2)
         (thin_plane_msg "use_equality_constraints") = (Ok c, lg) /\
    is_dim_constrained_ c = [false; true; false] /\
    filter is_error lg = [below_tolerance_entry].
Proof.
  destruct (init (construct EqualityPositionConstraint "arm" 2)
                 (thin_plane_msg "use_equality_constraints")) as [[c|f] lg] eqn:Hinit;
    [|vm_compute in Hinit; discriminate Hinit].
  exists c, lg. split; [reflexivity|].
  exact (@equality_classification_exact EqualityPositionConstraint "arm" 2%nat
           (thin_plane_msg "use_equality_constraints") c lg
           [d1; Fin (1 # 100000); d1] (or_introl eq_refl) Hinit eq_refl).
Defined.

Lemma created_object_fields_witness :
  exists c lg,
    createOMPLConstraint gantry "arm" (plane_msg "linear_system_constraints")
      = (Ok (Some c), lg) /\
    getLinkName c = "tool"%string /\
    getTargetPosition c = Fail Uninitialized /\
    end_position_ c = Some (fin3 1 2 3).
Proof.
  destruct (createOMPLConstraint gantry "arm" (plane_msg "linear_system_constraints"))
    as [[[c|]|f] lg] eqn:Hc; try (vm_compute in Hc; discriminate Hc).
  exists c, lg. split; [reflexivity|].
  destruct (@created_object_fields gantry "arm" (plane_msg "linear_system_constraints")
              _ _ c lg eq_refl eq_refl Hc)
    as (pose0 & _ & Hcls & _ & _ & _ & _ & Hlink & _ & _ & Hline).
  split; [exact Hlink|].
  destruct (Hline Hcls) as (Htp & _ & pose1 & Hpose1 & Hend).
  split; [exact Htp|]. rewrite Hend. cbn in Hpose1. injection Hpose1 as <-. reflexivity.
Defined.

Lemma position_function_zero_at_target_witness :
  exists c lg,
    init (construct PositionConstraint "arm" 2) (box_msg "") = (Ok c, lg) /\
    function gantry series_numerics c [Fin 1; Fin 2] [NaN; NaN; NaN] = Ok [d0; d0; d0].
Proof.
  destruct (init (construct PositionConstraint "arm" 2) (box_msg "")) as [[c|f] lg] eqn:Hinit;
    [|vm_compute in Hinit; discriminate Hinit].
  exists c, lg. split; [reflexivity|].
  vm_compute in Hinit. injection Hinit as Hc _. subst c.
  apply (@position_function_zero_at_target gantry series_numerics _ [Fin 1; Fin 2]
           [NaN; NaN; NaN] (mkBounds (Fin (-1)) (Fin 1)) (mkBounds (Fin (-1 # 2)) (Fin (1 # 2)))
           (mkBounds NInf PInf) 1 0 0 0 1 2 0 1 2 0);
    try reflexivity.
Defined.



Lemma operator_not_finite_when_cosine_is_one_witness :
  (std_cos tiny_angle_numerics (dabs (Fin (1 # 1000000000))) =? d1)%D = true /\
  forallb (fun x => negb (is_finite x))
    (m3_coeffs (angularVelocityToAngleAxis tiny_angle_numerics (Fin (1 # 1000000000))
                  (mkV3 d1 d0 d0)))
  = true.
Proof.
  split; [reflexivity|].
  apply operator_not_finite_when_cosine_is_one. reflexivity.
Defined.


Lemma equality_without_thin_dimension_is_vacuous_witness :
  exists c lg,
    init (construct EqualityPositionConstraint "arm" 2)
         (Constraints.mk "use_equality_constraints"
            [box_constraint [d1; d1; d1] [pose_at d0 d0 d0]] []) = (Ok c, lg) /\
    function gantry series_numerics c [Fin 3; Fin 2] [NaN; NaN; NaN] = Ok [d0; d0; d0] /\
    jacobian gantry series_numerics c [Fin 3; Fin 2] [[NaN; NaN]; [NaN; NaN]; [NaN; NaN]]
      = Ok (mat_zero 3 2).
Proof.
  destruct (init (construct EqualityPositionConstraint "arm" 2)
              (Constraints.mk "use_equality_constraints"
                 [box_constraint [d1; d1; d1] [pose_at d0 d0 d0]] []))
    as [[c|f] lg] eqn:Hinit; [|vm_compute in Hinit; discriminate Hinit].
  exists c, lg. split; [reflexivity|].
  destruct (@equality_without_thin_dimension_is_vacuous gantry series_numerics "arm" 2%nat
              _ c lg [d1; d1; d1] [Fin 3; Fin 2] Hinit eq_refl eq_refl) as [Hf Hj].
  split; [apply Hf; reflexivity|].
  rewrite Hj; [reflexivity|]. cbn. lia.
Defined.

Lemma jacobian_fails_on_short_robot_jacobian_witness :
  exists c lg,
    init (construct PositionConstraint "arm" 2) (box_msg "") = (Ok c, lg) /\
    jacobian robot_without_jacobian series_numerics c [Fin 3; Fin 2] (mat_zero 3 2)
      = Fail IndexOutOfBounds.
Proof.
  destruct (init (construct PositionConstraint "arm" 2) (box_msg "")) as [[c|f] lg] eqn:Hinit;
    [|vm_compute in Hinit; discriminate Hinit].
  exists c, lg. split; [reflexivity|].
  apply (@jacobian_fails_on_short_robot_jacobian robot_without_jacobian series_numerics
           PositionConstraint "arm" 2%nat (box_msg "") c lg [Fin 3; Fin 2] (mat_zero 3 2)
           Hinit).
  cbn. lia.
Defined.

(** ** When [init] returns *)

Lemma classify_dimensions_Ok_classifiable (c : BaseConstraint) (dims : list double)
    (mask : list bool) (lg : list log_entry) :
  classify_dimensions c dims = (Ok mask, lg) ->
  dimensions_classifiable (equality_constraint_threshold_ c) dims = true.
Proof.
  intro H. apply classify_dimensions_spec in H. destruct H as ((m0 & m1 & m2 & ->) & Hset).
  unfold dimensions_classifiable. apply forallb_forall. intros d Hin.
  apply In_nth_error in Hin. destruct Hin as (k & Hk).
  rewrite nth_error_skipn in Hk.
  destruct (d <? equality_constraint_threshold_ c)%D eqn:E; [|reflexivity].
  destruct (Hset _ _ Hk E) as [Hm _]. cbn in Hm. destruct k; discriminate Hm.
Qed.

Lemma primitive_dimensions_0_inv (msg : Constraints.t) (pc : PositionConstraint.t)
    (pcs : list PositionConstraint.t) (dims : list double) :
  Constraints.position_constraints msg = pc :: pcs ->
  primitive_dimensions_0 msg = Ok dims ->
  exists prims,
    BoundingVolume.primitives (PositionConstraint.constraint_region pc)
    = SolidPrimitive.mk dims :: prims.
Proof.
  intro Hp. unfold primitive_dimensions_0, position_constraint_0. rewrite Hp.
  cbn [at_ nth_error obind].
  destruct (BoundingVolume.primitives (PositionConstraint.constraint_region pc))
    as [|[d] prims]; cbn; intro H; inversion H. eauto.
Qed.

Lemma positionConstraintMsgToBoundVector_Ok_inv (pc : PositionConstraint.t)
    (b : list Bounds) :
  positionConstraintMsgToBoundVector pc = Ok b ->
  exists prim prims,
    BoundingVolume.primitives (PositionConstraint.constraint_region pc) = prim :: prims /\
    (3 <=? length (SolidPrimitive.dimensions prim))%nat = true.
Proof.
  unfold positionConstraintMsgToBoundVector.
  destruct (BoundingVolume.primitives (PositionConstraint.constraint_region pc))
    as [|[dims] prims]; [intro H; discriminate H|].
  cbn [at_ nth_error obind SolidPrimitive.dimensions].
  destruct dims as [|a [|b' [|c rest]]]; cbn; intro H; try discriminate H.
  do 2 eexists. split; reflexivity.
Qed.

Lemma nth_error_length_ge {A : Type} (l : list A) (i : nat) (a : A) :
  nth_error l i = Some a -> (S i <=? length l)%nat = true.
Proof.
  intro H. apply Nat.leb_le. apply nth_error_Some. congruence.
Qed.

(** With position entries, [init] of a fresh object returns exactly when
    the first entry has what the parser of the class reads: a first
    primitive, with three dimensions for the bounded class and with no
    dimension after the third under the equality threshold for the equality
    classes, and a first pose, with a second one for the linear system
    class. *)
Theorem init_returns_iff_well_formed (cls : constraint_class) (group : string)
    (num_dofs : nat) (msg : Constraints.t) (pc : PositionConstraint.t)
    (pcs : list PositionConstraint.t) :
  Constraints.position_constraints msg = pc :: pcs ->
  cls <> OrientationConstraint ->
  ((exists c lg, init (construct cls group num_dofs) msg = (Ok c, lg)) <->
   well_formed_for cls pc = true).
Proof.
  intros Hp Hcls. split;
    [|intro Hwf; exact (init_well_formed cls group num_dofs msg Hp Hwf)].
  intros (c & lg & Hinit). unfold init, parseConstraintMsg in Hinit.
  cbn [class_of construct] in Hinit. unfold well_formed_for.
  destruct cls; [| | |exfalso; apply Hcls; reflexivity].
  - apply PositionConstraint_parse_inv in Hinit.
    destruct Hinit as (pc' & b0 & b1 & b2 & pose & Hpc & Hb & Hpose & _).
    apply (position_constraint_0_first _ Hp) in Hpc. subst pc'.
    apply (primitive_pose_nth _ _ Hp) in Hpose. apply nth_error_length_ge in Hpose.
    apply positionConstraintMsgToBoundVector_Ok_inv in Hb.
    destruct Hb as (prim & prims & -> & Hdims).
    rewrite Hdims, Hpose. reflexivity.
  - apply EqualityPositionConstraint_parse_inv in Hinit.
    destruct Hinit as (dims & m0 & m1 & m2 & lgm & pose & pc' & Hd & Hm & _ & Hpose & _ & _).
    apply (primitive_dimensions_0_inv _ Hp) in Hd. destruct Hd as (prims & ->).
    apply (primitive_pose_nth _ _ Hp) in Hpose. apply nth_error_length_ge in Hpose.
    apply classify_dimensions_Ok_classifiable in Hm.
    cbn [SolidPrimitive.dimensions]. rewrite Hpose.
    cbn [equality_constraint_threshold_ set_bounds construct] in Hm. rewrite Hm. reflexivity.
  - apply LinearSystemPositionConstraint_parse_inv in Hinit.
    destruct Hinit
      as (dims & m0 & m1 & m2 & lgm & pose0 & pose1 & pc' & Hd & Hm & _ & _ & Hpose & _ & _).
    apply (primitive_dimensions_0_inv _ Hp) in Hd. destruct Hd as (prims & ->).
    apply (primitive_pose_nth _ _ Hp) in Hpose. apply nth_error_length_ge in Hpose.
    apply classify_dimensions_Ok_classifiable in Hm.
    cbn [SolidPrimitive.dimensions]. rewrite Hpose.
    cbn [equality_constraint_threshold_ set_bounds construct] in Hm. rewrite Hm. reflexivity.
Qed.

Lemma init_returns_iff_well_formed_witness :
  (exists c lg,
     init (construct LinearSystemPositionConstraint "arm" 2)
          (plane_msg "linear_system_constraints") = (Ok c, lg)) /\
  ~ (exists c lg,
       init (construct EqualityPositionConstraint "arm" 2)
            (Constraints.mk "use_equality_constraints"
               [box_constraint [d1; d1; d1; Fin (1 # 2000)] [pose_at d0 d0 d0]] [])
       = (Ok c, lg)).
Proof.
  split.
  - apply (proj2 (@init_returns_iff_well_formed LinearSystemPositionConstraint "arm" 2%nat
                    (plane_msg "linear_system_constraints") _ _ eq_refl
                    ltac:(discriminate))).
    reflexivity.
  - intro H.
    apply (proj1 (@init_returns_iff_well_formed EqualityPositionConstraint "arm" 2%nat
                    (Constraints.mk "use_equality_constraints"
                       [box_constraint [d1; d1; d1; Fin (1 # 2000)] [pose_at d0 d0 d0]] [])
                    _ _ eq_refl ltac:(discriminate))) in H.
    discriminate H.
Defined.

(** ** The orientation error at angle zero *)

Lemma dmul_fin_0 (a : Q) : (Fin a * d0)%D = d0.
Proof.
  unfold d0. cbn [dmul]. f_equal. change 0%Q with (Qred 0) at 2.
  apply Qred_complete. ring.
Qed.

(** When the angle-axis conversion reports angle 0 about a finite axis,
    the error of an orientation constraint is the zero vector, and
    [function] is the zero vector for bounds that contain 0. *)
Theorem orientation_function_zero_at_angle_zero
    (rm : RobotModel) (nm : Numerics) (c : BaseConstraint) (q out : VectorXd)
    (b0 b1 b2 : Bounds) (o : Quaterniond) (ax ay az : Q) :
  class_of c = OrientationConstraint ->
  bounds_ c = [b0; b1; b2] ->
  within b0 d0 = true -> within b1 d0 = true -> within b2 d0 = true ->
  target_orientation_ c = Some o ->
  toAngleAxis nm (m3_mul (m3_transpose (linear (forwardKinematics rm c q)))
                         (toRotationMatrix o))
    = mkAA d0 (fin3 ax ay az) ->
  length out = 3%nat ->
  calcError rm nm c q = Ok [d0; d0; d0] /\
  function rm nm c q out = Ok [d0; d0; d0].
Proof.
  intros Hcls Hb W0 W1 W2 Ho Haa Hout.
  assert (He : calcError rm nm c q = Ok [d0; d0; d0]).
  { unfold calcError, OrientationConstraint_calcError, orientation_difference.
    rewrite Hcls, Ho. cbn [member obind]. rewrite Haa.
    unfold v3_scale, v3_map, fin3, v3_coeffs. cbn [axis angle vx vy vz].
    rewrite !dmul_fin_0. reflexivity. }
  split; [exact He|].
  apply list_length_3 in Hout. destruct Hout as (o0 & o1 & o2 & ->).
  unfold function, BaseConstraint_function. rewrite Hcls, He, Hb.
  unfold for_loop. cbn [for_range length obind index nth_error
                        index_put Nat.ltb Nat.leb replace_nth].
  rewrite (@penalty_within b0 d0 W0), (@penalty_within b1 d0 W1), (@penalty_within b2 d0 W2).
  reflexivity.
Qed.

Lemma orientation_function_zero_at_angle_zero_witness :
  exists c lg,
    init (construct OrientationConstraint "arm" 3) upright_msg = (Ok c, lg) /\
    function wrist series_numerics c [d0; d0; d0] [NaN; NaN; NaN] = Ok [d0; d0; d0].
Proof.
  destruct (init (construct OrientationConstraint "arm" 3) upright_msg)
    as [[c|f] lg] eqn:Hinit; [|vm_compute in Hinit; discriminate Hinit].
  exists c, lg. split; [reflexivity|].
  vm_compute in Hinit. injection Hinit as Hc _. subst c.
  apply (@orientation_function_zero_at_angle_zero wrist series_numerics _ [d0; d0; d0]
           [NaN; NaN; NaN] (mkBounds (Fin (-1 # 10)) (Fin (1 # 10)))
           (mkBounds (Fin (-1 # 10)) (Fin (1 # 10))) (mkBounds NInf PInf)
           (mkQuat (Fin 1) (Fin 0) (Fin 0) (Fin 0)) 1 0 0);
    reflexivity.
Defined.
